(** * raccoon: a bounded reconnaissance loop driving HTTP requests

    Shallow embedding of [raccoon.py] and the properties of its structured
    action protocol, its HTTP executor, its session state and its agent loop.

    Python [str] values are modelled as [string] over ASCII text, Python
    [int] as [Z], Python lists as [list], the [dict] built for the request
    headers as a [gmap].  Calls that leave the program (the text generation
    backend and the HTTP transport) are transitions of an abstract world and
    may raise.  The JSON decoder is modelled with the two limits of the
    interpreter that make it raise: the length of an integer literal and the
    depth of nesting. *)

From stdpp Require Import base gmap strings list.
From Stdlib Require Import ZArith Lia String Ascii List DecimalString.
Import ListNotations.
Open Scope string_scope.
Open Scope list_scope.
Open Scope Z_scope.
Set Warnings "-register-all".

(** ** Python string primitives used by the field constraints *)

Module Py.

(** The white space the [strip_whitespace] constraint removes, on one ASCII
    character: tab, line feed, vertical tab, form feed, carriage return and
    the space.  The separators 0x1c to 0x1f, which [str.isspace] counts, are
    kept by the constraint and are not white space here. *)
Definition is_space (c : ascii) : bool :=
  let n := nat_of_ascii c in
  ((9 <=? n)%nat && (n <=? 13)%nat) || (n =? 32)%nat.

Fixpoint lstrip (s : string) : string :=
  match s with
  | EmptyString => EmptyString
  | String c s' => if is_space c then lstrip s' else s
  end.

Fixpoint rstrip (s : string) : string :=
  match s with
  | EmptyString => EmptyString
  | String c s' =>
      match rstrip s' with
      | EmptyString => if is_space c then EmptyString else String c EmptyString
      | r => String c r
      end
  end.

(** The value the [strip_whitespace] constraint gives: the text without the
    white space at its two ends. *)
Definition strip (s : string) : string := rstrip (lstrip s).

Definition is_lower (c : ascii) : bool :=
  let n := nat_of_ascii c in (97 <=? n)%nat && (n <=? 122)%nat.

Definition upper_char (c : ascii) : ascii :=
  if is_lower c then ascii_of_nat (nat_of_ascii c - 32) else c.

(** Text within ASCII: every character is below 128 ([str.isascii]). *)
Fixpoint is_ascii (s : string) : bool :=
  match s with
  | EmptyString => true
  | String c s' => (nat_of_ascii c <? 128)%nat && is_ascii s'
  end.

(** The value the [to_upper] constraint gives on ASCII text: the letters a
    to z are replaced by A to Z, every other character is kept.  Outside
    ASCII the constraint follows the Unicode case mapping, which this
    development does not model. *)
Fixpoint upper (s : string) : string :=
  match s with
  | EmptyString => EmptyString
  | String c s' => String (upper_char c) (upper s')
  end.

Fixpoint all_space (s : string) : bool :=
  match s with
  | EmptyString => true
  | String c s' => is_space c && all_space s'
  end.

Definition starts_with_space (s : string) : bool :=
  match s with
  | EmptyString => false
  | String c _ => is_space c
  end.

Fixpoint ends_with_space (s : string) : bool :=
  match s with
  | EmptyString => false
  | String c EmptyString => is_space c
  | String _ s' => ends_with_space s'
  end.

Fixpoint has_lower (s : string) : bool :=
  match s with
  | EmptyString => false
  | String c s' => is_lower c || has_lower s'
  end.

(** [str(n)] for an [int]. *)
Definition str_of_int (n : Z) : string := NilZero.string_of_int (Z.to_int n).

(** ["sep".join(parts)] *)
Fixpoint join (sep : string) (parts : list string) : string :=
  match parts with
  | [] => EmptyString
  | [p] => p
  | p :: rest => p +:+ sep +:+ join sep rest
  end.

(** [l[:m]] for a list and an [int]: a negative bound counts from the end. *)
Definition slice_to {A} (l : list A) (m : Z) : list A :=
  if 0 <=? m then firstn (Z.to_nat m) l
  else firstn (Z.to_nat (Z.of_nat (List.length l) + m)) l.

(** [range(n)] *)
Definition range (n : Z) : list Z := map Z.of_nat (seq 0 (Z.to_nat n)).

End Py.

(** ** Models (lines 24-73)

    [str_strip] and [str_upper] are the two annotated string types; the
    constraint is applied when a model instance is constructed.  Both are
    given on ASCII text: [strip_whitespace] removes the characters 9 to 13
    and 32 at the two ends, [to_upper] maps the letters a to z. *)

Definition str_strip (s : string) : string := Py.strip s.
Definition str_upper (s : string) : string := Py.upper s.

Record Header := mkHeader { Header_name : string; Header_value : string }.

(** The class [Parameter]; the name is reserved in Rocq. *)
Record UrlParameter := mkParameter { Parameter_name : string; Parameter_value : string }.

Record Request := mkRequest {
  Request_method : string;
  Request_path : string;
  Request_headers : list Header;
  Request_url_params : list UrlParameter;
  Request_body : string
}.

Record Response := mkResponse {
  Response_status_code : Z;
  Response_headers : list Header;
  Response_body : string
}.

(** Validating constructors: [Header(name=.., value=..)] and so on. An
    argument left out is [None] and takes the declared default. *)

Definition Header_init (name value : string) : Header :=
  mkHeader name (str_strip value).

Definition Parameter_init (name value : string) : UrlParameter :=
  mkParameter name (str_strip value).

Definition Request_init (method path : string) (headers : option (list Header))
    (url_params : option (list UrlParameter)) (body : option string) : Request :=
  mkRequest (str_upper method) path
    (default [] headers)
    (default [] url_params)
    (match body with Some b => str_strip b | None => EmptyString end).

Definition Response_init (status_code : Z) (headers : option (list Header))
    (body : option string) : Response :=
  mkResponse status_code
    (default [] headers)
    (match body with Some b => str_strip b | None => EmptyString end).

(** ** The structured action codec

    The tagged text format is declared by the model fields: [method] and
    [path] are attributes of the outer tag, [headers] and [url_params] are
    wrapped lists of elements carrying a [name] attribute and a text value,
    [body] is a text element.  The engine that renders and parses such
    declarations lives in the libraries the program imports. *)

Module Codec.

Definition nl : string := String (ascii_of_nat 10) EmptyString.
Definition lt_c : ascii := ascii_of_nat 60.
Definition gt_c : ascii := ascii_of_nat 62.
Definition slash_c : ascii := ascii_of_nat 47.
Definition eq_c : ascii := ascii_of_nat 61.
Definition quote_c : ascii := ascii_of_nat 34.
Definition quote : string := String quote_c EmptyString.

Definition snoc (s : string) (c : ascii) : string := s +:+ String c EmptyString.

(** An element of the tagged format: tag, attributes, the text before the
    first child, the children. *)
Inductive Xml :=
| Elem (tag : string) (attrs : list (string * string)) (text : string)
       (children : list Xml).

Definition Header_to_xml (h : Header) : Xml :=
  Elem "header" [("name", Header_name h)] (Header_value h) [].

Definition Parameter_to_xml (p : UrlParameter) : Xml :=
  Elem "parameter" [("name", Parameter_name p)] (Parameter_value p) [].

(** The element tree of a [Request], field by field as declared. *)
Definition Request_to_xml (r : Request) : Xml :=
  Elem "request" [("method", Request_method r); ("path", Request_path r)] EmptyString
    [ Elem "headers" [] EmptyString (map Header_to_xml (Request_headers r));
      Elem "url_params" [] EmptyString (map Parameter_to_xml (Request_url_params r));
      Elem "body" [] (Request_body r) [] ].

Definition render_attr (a : string * string) : string :=
  " " +:+ fst a +:+ "=" +:+ quote +:+ snd a +:+ quote.

Fixpoint indent (depth : nat) : string :=
  match depth with
  | O => EmptyString
  | S d => "  " +:+ indent d
  end.

(** Pretty rendering: one element per line, children indented by two
    spaces, no short form for empty elements. *)
Fixpoint render (depth : nat) (e : Xml) : string :=
  match e with
  | Elem tag attrs text kids =>
      let opening := "<" +:+ tag +:+ String.concat EmptyString (map render_attr attrs) +:+ ">" in
      let closing := "</" +:+ tag +:+ ">" in
      match kids with
      | [] => opening +:+ text +:+ closing
      | _ =>
          opening +:+ nl
          +:+ String.concat EmptyString
                (map (fun k => indent (S depth) +:+ render (S depth) k +:+ nl) kids)
          +:+ indent depth +:+ closing
      end
  end.

(** Modelled from the spec: the renderer of the tagged text format
    ([to_pretty_xml], section 4.1 [render_example]); the rendering engine is
    not part of the source file. *)
Definition to_pretty_xml (r : Request) : string := render 0 (Request_to_xml r).

(** *** Scanning free text for tags *)

Inductive Token :=
| TOpen (tag : string) (attrs : list (string * string))
| TClose (tag : string)
| TChar (c : ascii).

Definition is_name_char (c : ascii) : bool :=
  let n := nat_of_ascii c in
  ((48 <=? n)%nat && (n <=? 57)%nat) || ((65 <=? n)%nat && (n <=? 90)%nat)
  || ((97 <=? n)%nat && (n <=? 122)%nat)
  || (n =? 95)%nat || (n =? 45)%nat || (n =? 46)%nat || (n =? 58)%nat.

Inductive LexState :=
| LStart
| LName (closing : bool) (name : string)
| LCloseGap (name : string)
| LGap (name : string) (attrs : list (string * string))
| LAttrName (name : string) (attrs : list (string * string)) (an : string)
| LAttrEq (name : string) (attrs : list (string * string)) (an : string)
| LAttrVal (name : string) (attrs : list (string * string)) (an av : string).

(** Reads one tag after its opening angle bracket. The result is the token
    and the number of characters it spans after the bracket; [None] when the
    text is not a well-formed tag. *)
Fixpoint lex_tag (st : LexState) (s : string) (n : nat) : option (Token * nat) :=
  match s with
  | EmptyString => None
  | String c s' =>
      match st with
      | LStart =>
          if Ascii.eqb c slash_c then lex_tag (LName true EmptyString) s' (S n)
          else if is_name_char c then lex_tag (LName false (String c EmptyString)) s' (S n)
          else None
      | LName closing name =>
          if is_name_char c then lex_tag (LName closing (snoc name c)) s' (S n)
          else if String.eqb name EmptyString then None
          else if Ascii.eqb c gt_c then
            Some (if closing then TClose name else TOpen name [], S n)
          else if Py.is_space c then
            lex_tag (if closing then LCloseGap name else LGap name []) s' (S n)
          else None
      | LCloseGap name =>
          if Ascii.eqb c gt_c then Some (TClose name, S n)
          else if Py.is_space c then lex_tag st s' (S n)
          else None
      | LGap name attrs =>
          if Ascii.eqb c gt_c then Some (TOpen name attrs, S n)
          else if Py.is_space c then lex_tag st s' (S n)
          else if is_name_char c then lex_tag (LAttrName name attrs (String c EmptyString)) s' (S n)
          else None
      | LAttrName name attrs an =>
          if is_name_char c then lex_tag (LAttrName name attrs (snoc an c)) s' (S n)
          else if Ascii.eqb c eq_c then lex_tag (LAttrEq name attrs an) s' (S n)
          else None
      | LAttrEq name attrs an =>
          if Ascii.eqb c quote_c then lex_tag (LAttrVal name attrs an EmptyString) s' (S n)
          else None
      | LAttrVal name attrs an av =>
          if Ascii.eqb c quote_c then lex_tag (LGap name (attrs ++ [(an, av)])) s' (S n)
          else if Ascii.eqb c lt_c then None
          else lex_tag (LAttrVal name attrs an (snoc av c)) s' (S n)
      end
  end.

(** Splits a text into tags and plain characters. An angle bracket that does
    not open a well-formed tag is a plain character. [skip] characters are
    passed over first: the tail of a tag already read. *)
Fixpoint tokens (s : string) (skip : nat) : list Token :=
  match s with
  | EmptyString => []
  | String c s' =>
      match skip with
      | S k => tokens s' k
      | O =>
          if Ascii.eqb c lt_c then
            match lex_tag LStart s' 0 with
            | Some (t, n) => t :: tokens s' n
            | None => TChar c :: tokens s' 0
            end
          else TChar c :: tokens s' 0
      end
  end.

(** *** Building elements from tokens *)

(** An element whose closing tag has not been read yet; the children are
    kept in reverse order. *)
Record Frame := mkFrame {
  f_tag : string;
  f_attrs : list (string * string);
  f_text : string;
  f_kids : list Xml
}.

Definition close_frame (f : Frame) : Xml :=
  Elem (f_tag f) (f_attrs f) (f_text f) (rev (f_kids f)).

(** Reads tokens until the outermost open element is closed. The result is
    that element and the number of tokens read; [None] when a closing tag does
    not match or the tokens run out. *)
Fixpoint build (stack : list Frame) (toks : list Token) (n : nat)
    : option (Xml * nat) :=
  match toks with
  | [] => None
  | t :: rest =>
      match t, stack with
      | _, [] => None
      | TChar c, f :: st =>
          let f' := match f_kids f with
                    | [] => mkFrame (f_tag f) (f_attrs f) (snoc (f_text f) c) []
                    | _ => f
                    end in
          build (f' :: st) rest (S n)
      | TOpen tag attrs, _ => build (mkFrame tag attrs EmptyString [] :: stack) rest (S n)
      | TClose tag, f :: st =>
          if String.eqb tag (f_tag f) then
            match st with
            | [] => Some (close_frame f, S n)
            | g :: st' =>
                build (mkFrame (f_tag g) (f_attrs g) (f_text g)
                         (close_frame f :: f_kids g) :: st') rest (S n)
            end
          else None
      end
  end.

(** *** From an element to a validated model *)

Fixpoint attr (name : string) (attrs : list (string * string)) : option string :=
  match attrs with
  | [] => None
  | (k, v) :: rest => if String.eqb k name then Some v else attr name rest
  end.

Definition tag_of (e : Xml) : string := match e with Elem t _ _ _ => t end.
Definition attrs_of (e : Xml) : list (string * string) :=
  match e with Elem _ a _ _ => a end.
Definition text_of (e : Xml) : string := match e with Elem _ _ x _ => x end.
Definition children_of (e : Xml) : list Xml := match e with Elem _ _ _ k => k end.

Fixpoint child (tag : string) (kids : list Xml) : option Xml :=
  match kids with
  | [] => None
  | k :: rest => if String.eqb (tag_of k) tag then Some k else child tag rest
  end.

(** All the items of a wrapped list must be well-formed. *)
Fixpoint all_some {A B} (f : A -> option B) (l : list A) : option (list B) :=
  match l with
  | [] => Some []
  | x :: rest =>
      match f x, all_some f rest with
      | Some y, Some ys => Some (y :: ys)
      | _, _ => None
      end
  end.

Definition Header_from_xml (e : Xml) : option Header :=
  if String.eqb (tag_of e) "header" then
    match attr "name" (attrs_of e) with
    | Some n => Some (Header_init n (text_of e))
    | None => None
    end
  else None.

Definition Parameter_from_xml (e : Xml) : option UrlParameter :=
  if String.eqb (tag_of e) "parameter" then
    match attr "name" (attrs_of e) with
    | Some n => Some (Parameter_init n (text_of e))
    | None => None
    end
  else None.

(** A wrapped list: absent section, or the items of the section. The outer
    option is the validation result, the inner one the presence. *)
Definition wrapped {B} (tag : string) (item : Xml -> option B) (kids : list Xml)
    : option (option (list B)) :=
  match child tag kids with
  | None => Some None
  | Some w =>
      match all_some item (children_of w) with
      | Some l => Some (Some l)
      | None => None
      end
  end.

(** The raw fields of a block, before validation: the text of the two
    attributes and the optional sections. *)
Record RawRequest := mkRaw {
  raw_method : string;
  raw_path : string;
  raw_headers : option (list Header);
  raw_url_params : option (list UrlParameter);
  raw_body : option string
}.

Definition raw_of_xml (e : Xml) : option RawRequest :=
  if String.eqb (tag_of e) "request" then
    match attr "method" (attrs_of e), attr "path" (attrs_of e),
          wrapped "headers" Header_from_xml (children_of e),
          wrapped "url_params" Parameter_from_xml (children_of e) with
    | Some m, Some p, Some hs, Some ps =>
        Some (mkRaw m p hs ps (option_map text_of (child "body" (children_of e))))
    | _, _, _, _ => None
    end
  else None.

Definition Request_of_raw (x : RawRequest) : Request :=
  Request_init (raw_method x) (raw_path x) (raw_headers x) (raw_url_params x)
    (raw_body x).

Definition Request_from_xml (e : Xml) : option Request :=
  option_map Request_of_raw (raw_of_xml e).

(** Walks the tokens; at each opening [request] tag tries to read a whole
    block. A block that is not well-formed is passed over. *)
Fixpoint blocks (toks : list Token) (skip : nat) : list Xml :=
  match toks with
  | [] => []
  | t :: rest =>
      match skip with
      | S k => blocks rest k
      | O =>
          match t with
          | TOpen tag attrs =>
              if String.eqb tag "request" then
                match build [mkFrame tag attrs EmptyString []] rest 0 with
                | Some (e, n) => e :: blocks rest n
                | None => blocks rest 0
                end
              else blocks rest 0
          | _ => blocks rest 0
          end
      end
  end.

Fixpoint keep_some {A B} (f : A -> option B) (l : list A) : list B :=
  match l with
  | [] => []
  | x :: rest =>
      match f x with
      | Some y => y :: keep_some f rest
      | None => keep_some f rest
      end
  end.

(** Modelled from the spec: the parser of the tagged text format
    ([try_parse_many], section 4.1 [parse_many]); it scans free text for
    well-formed blocks, skips the others and never raises. The parsing
    engine is not part of the source file. *)
Definition try_parse_many (text : string) : list Request :=
  keep_some Request_from_xml (blocks (tokens text 0) 0).

End Codec.

(** [Request.xml_example] (lines 53-61). *)
Definition Request_example : Request :=
  Request_init "GET" "/$path"
    (Some [Header_init "X-Header" "my-value"])
    (Some [Parameter_init "name" "test-param"])
    (Some "$body").

Definition Request_xml_example : string := Codec.to_pretty_xml Request_example.

(** ** JSON text, as read by [json.loads]

    The values are the Python objects the decoder builds: [None], [bool],
    [int], [float], [str], [list] and [dict].  A [float] is kept as its
    decimal literal, sign, digits and exponent of ten. *)

Module Json.

(** The exceptions that leave [json.loads]: the decoder's own
    [JSONDecodeError] for a text that is not JSON, [ValueError] for an
    integer literal longer than the interpreter converts, and
    [RecursionError] for values nested deeper than the interpreter's
    recursion limit leaves room for. *)
Inductive Error := JSONDecodeError | ValueError | RecursionError.

Definition Error_name (e : Error) : string :=
  match e with
  | JSONDecodeError => "JSONDecodeError"
  | ValueError => "ValueError"
  | RecursionError => "RecursionError"
  end.

Inductive Value :=
| JNull
| JBool (b : bool)
| JInt (n : Z)
| JFloat (negative : bool) (digits : N) (exponent : Z)
| JNaN
| JInfinity (negative : bool)
| JStr (s : list N)
| JList (items : list Value)
| JDict (items : list (list N * Value)).

(** A decimal literal denotes the [float] zero when it is zero or rounds to
    it: when it is at most half the least positive double, 2^-1075. *)
Definition float_is_zero (digits : N) (exponent : Z) : bool :=
  if (digits =? 0)%N then true
  else if 0 <=? exponent then false
  else Z.of_N digits * 2 ^ 1075 <=? 10 ^ (- exponent).

(** The truth value of an object, as [not] and [if] take it. *)
Definition truthy (v : Value) : bool :=
  match v with
  | JNull => false
  | JBool b => b
  | JInt n => negb (n =? 0)
  | JFloat _ d e => negb (float_is_zero d e)
  | JNaN => true
  | JInfinity _ => true
  | JStr s => match s with [] => false | _ => true end
  | JList l => match l with [] => false | _ => true end
  | JDict d => match d with [] => false | _ => true end
  end.

Definition is_ws (c : ascii) : bool :=
  let n := nat_of_ascii c in
  (n =? 32)%nat || (n =? 9)%nat || (n =? 10)%nat || (n =? 13)%nat.

Fixpoint skip_ws (s : string) : string :=
  match s with
  | String c s' => if is_ws c then skip_ws s' else s
  | EmptyString => s
  end.

Fixpoint strip_prefix (p s : string) : option string :=
  match p, s with
  | EmptyString, _ => Some s
  | String a p', String b s' => if Ascii.eqb a b then strip_prefix p' s' else None
  | String _ _, EmptyString => None
  end.

Definition digit_of (c : ascii) : option Z :=
  let n := nat_of_ascii c in
  if (48 <=? n)%nat && (n <=? 57)%nat then Some (Z.of_nat (n - 48)) else None.

Definition hex_of (c : ascii) : option N :=
  let n := nat_of_ascii c in
  if (48 <=? n)%nat && (n <=? 57)%nat then Some (N.of_nat (n - 48))
  else if (65 <=? n)%nat && (n <=? 70)%nat then Some (N.of_nat (n - 55))
  else if (97 <=? n)%nat && (n <=? 102)%nat then Some (N.of_nat (n - 87))
  else None.

(** Reads the longest run of decimal digits: their value on top of [acc],
    how many there are, and the text after them. *)
Fixpoint digits (acc : Z) (count : nat) (s : string) : Z * nat * string :=
  match s with
  | String c s' =>
      match digit_of c with
      | Some d => digits (acc * 10 + d) (S count) s'
      | None => (acc, count, s)
      end
  | EmptyString => (acc, count, s)
  end.

(** The integer part: a single zero, or a run of digits that does not start
    with zero. *)
Definition int_part (s : string) : option (Z * nat * string) :=
  match s with
  | String c s' =>
      match digit_of c with
      | Some 0 => Some (0, 1%nat, s')
      | Some _ => Some (digits 0 0 s)
      | None => None
      end
  | EmptyString => None
  end.

(** The optional fraction: a dot and at least one digit. *)
Definition frac_part (s : string) : option (Z * nat * string) :=
  match s with
  | String c s' =>
      if Ascii.eqb c "."%char then
        let '(v, k, r) := digits 0 0 s' in
        match k with O => None | _ => Some (v, k, r) end
      else None
  | EmptyString => None
  end.

(** The optional exponent: [e] or [E], an optional sign, at least one
    digit. *)
Definition exp_part (s : string) : option (Z * string) :=
  match s with
  | String c s' =>
      if Ascii.eqb c "e"%char || Ascii.eqb c "E"%char then
        let '(negative, s'') :=
          match s' with
          | String g t =>
              if Ascii.eqb g "-"%char then (true, t)
              else if Ascii.eqb g "+"%char then (false, t)
              else (false, s')
          | EmptyString => (false, s')
          end in
        let '(v, k, r) := digits 0 0 s'' in
        match k with
        | O => None
        | _ => Some (if negative then - v else v, r)
        end
      else None
  | EmptyString => None
  end.

(** What scanning one value at the head of a text gives: the value and the
    text after it, or the exception that stops the decoder. *)
Inductive Scan :=
| Got (v : Value) (rest : string)
| Stop (e : Error).

(** The longest digit string [int] converts from text: the interpreter's
    default, which the program does not change. *)
Definition int_max_str_digits : nat := 4300.

(** A number literal at the head of [s], [None] when there is none. It is
    an [int] when it has neither fraction nor exponent, a [float] otherwise.
    The conversion of an [int] literal of more than [int_max_str_digits]
    digits raises [ValueError]; a [float] literal has no such limit. *)
Definition number (s : string) : option Scan :=
  let '(negative, s1) :=
    match s with
    | String c t => if Ascii.eqb c "-"%char then (true, t) else (false, s)
    | EmptyString => (false, s)
    end in
  match int_part s1 with
  | None => None
  | Some (i, count, s2) =>
      match frac_part s2, exp_part s2 with
      | None, None =>
          if (int_max_str_digits <? count)%nat then Some (Stop ValueError)
          else Some (Got (JInt (if negative then - i else i)) s2)
      | None, Some (e, s3) => Some (Got (JFloat negative (Z.to_N i) e) s3)
      | Some (f, k, s3), _ =>
          let d := Z.to_N (i * 10 ^ Z.of_nat k + f) in
          match exp_part s3 with
          | None => Some (Got (JFloat negative d (- Z.of_nat k)) s3)
          | Some (e, s4) => Some (Got (JFloat negative d (e - Z.of_nat k)) s4)
          end
      end
  end.

Definition quote_c : ascii := ascii_of_nat 34.
Definition backslash_c : ascii := ascii_of_nat 92.

Definition hex4 (a b c d : ascii) : option N :=
  match hex_of a, hex_of b, hex_of c, hex_of d with
  | Some x, Some y, Some z, Some w => Some (((x * 16 + y) * 16 + z) * 16 + w)%N
  | _, _, _, _ => None
  end.

Definition simple_escape (c : ascii) : option N :=
  let n := nat_of_ascii c in
  if (n =? 34)%nat then Some 34%N          (* quote *)
  else if (n =? 92)%nat then Some 92%N     (* backslash *)
  else if (n =? 47)%nat then Some 47%N     (* slash *)
  else if (n =? 98)%nat then Some 8%N      (* b *)
  else if (n =? 102)%nat then Some 12%N    (* f *)
  else if (n =? 110)%nat then Some 10%N    (* n *)
  else if (n =? 114)%nat then Some 13%N    (* r *)
  else if (n =? 116)%nat then Some 9%N     (* t *)
  else None.

(** The low half of a surrogate pair written right after a high half. The
    outer option is [None] when a [\u] follows without four hex digits. *)
Definition low_surrogate (s : string) : option (option (N * string)) :=
  match s with
  | String b (String u (String h1 (String h2 (String h3 (String h4 r))))) =>
      if Ascii.eqb b backslash_c && Ascii.eqb u "u"%char then
        match hex4 h1 h2 h3 h4 with
        | Some lo =>
            if (56320 <=? lo)%N && (lo <=? 57343)%N then Some (Some (lo, r))
            else Some None
        | None => None
        end
      else Some None
  | String b (String u _) =>
      if Ascii.eqb b backslash_c && Ascii.eqb u "u"%char then None else Some None
  | _ => Some None
  end.

(** The characters of a string literal after its opening quote, up to the
    closing quote. Control characters are refused, escapes are decoded and a
    surrogate pair is one character. *)
Fixpoint scan_string (acc : list N) (s : string) {struct s} : option (list N * string) :=
  match s with
  | EmptyString => None
  | String c s' =>
      if Ascii.eqb c quote_c then Some (rev acc, s')
      else if Ascii.eqb c backslash_c then
        match s' with
        | EmptyString => None
        | String e s2 =>
            if Ascii.eqb e "u"%char then
              match s2 with
              | String h1 (String h2 (String h3 (String h4 s3))) =>
                  match hex4 h1 h2 h3 h4 with
                  | None => None
                  | Some hi =>
                      if (55296 <=? hi)%N && (hi <=? 56319)%N then
                        match low_surrogate s3, s3 with
                        | None, _ => None
                        | Some (Some (lo, _)),
                          String _ (String _ (String _ (String _ (String _ (String _ s4))))) =>
                            scan_string
                              ((65536 + ((hi - 55296) * 1024 + (lo - 56320)))%N :: acc) s4
                        | Some _, _ => scan_string (hi :: acc) s3
                        end
                      else scan_string (hi :: acc) s3
                  end
              | _ => None
              end
            else
              match simple_escape e with
              | Some n => scan_string (n :: acc) s2
              | None => None
              end
        end
      else if (nat_of_ascii c <? 32)%nat then None
      else scan_string (N_of_ascii c :: acc) s'
  end.

(** [d[k] = v] on a [dict] kept in insertion order. *)
Fixpoint dict_set (k : list N) (v : Value) (d : list (list N * Value))
    : list (list N * Value) :=
  match d with
  | [] => [(k, v)]
  | (k', v') :: rest =>
      if decide (k = k') then (k, v) :: rest else (k', v') :: dict_set k v rest
  end.

Definition literal (s : string) : Scan :=
  match strip_prefix "null" s with
  | Some r => Got JNull r
  | None =>
  match strip_prefix "true" s with
  | Some r => Got (JBool true) r
  | None =>
  match strip_prefix "false" s with
  | Some r => Got (JBool false) r
  | None =>
  match number s with
  | Some x => x
  | None =>
  match strip_prefix "NaN" s with
  | Some r => Got JNaN r
  | None =>
  match strip_prefix "Infinity" s with
  | Some r => Got (JInfinity false) r
  | None =>
  match strip_prefix "-Infinity" s with
  | Some r => Got (JInfinity true) r
  | None => Stop JSONDecodeError
  end end end end end end end.

(** One value at the head of [s] and the text after it. Each nested call
    takes one unit of [fuel]. [room] is the number of levels of nesting the
    recursion limit still allows below this value: scanning an element of a
    list or the value of a key enters one level, and raises
    [RecursionError] when there is no room left. *)
Fixpoint value (fuel room : nat) (s : string) {struct fuel} : Scan :=
  match fuel with
  | O => Stop JSONDecodeError
  | S f =>
      match s with
      | EmptyString => Stop JSONDecodeError
      | String c s' =>
          if Ascii.eqb c quote_c then
            match scan_string [] s' with
            | Some (cs, r) => Got (JStr cs) r
            | None => Stop JSONDecodeError
            end
          else if Ascii.eqb c "{"%char then
            match skip_ws s' with
            | String c2 r' =>
                if Ascii.eqb c2 "}"%char then Got (JDict []) r'
                else pairs f room [] (skip_ws s')
            | EmptyString => Stop JSONDecodeError
            end
          else if Ascii.eqb c "["%char then
            match skip_ws s' with
            | String c2 r' =>
                if Ascii.eqb c2 "]"%char then Got (JList []) r'
                else items f room [] (skip_ws s')
            | EmptyString => Stop JSONDecodeError
            end
          else literal s
      end
  end
with items (fuel room : nat) (acc : list Value) (s : string) {struct fuel} : Scan :=
  match fuel with
  | O => Stop JSONDecodeError
  | S f =>
      match room with
      | O => Stop RecursionError
      | S below =>
          match value f below s with
          | Stop e => Stop e
          | Got v r =>
              match skip_ws r with
              | String c r' =>
                  if Ascii.eqb c ","%char then items f room (v :: acc) (skip_ws r')
                  else if Ascii.eqb c "]"%char then Got (JList (rev (v :: acc))) r'
                  else Stop JSONDecodeError
              | EmptyString => Stop JSONDecodeError
              end
          end
      end
  end
with pairs (fuel room : nat) (acc : list (list N * Value)) (s : string) {struct fuel}
    : Scan :=
  match fuel with
  | O => Stop JSONDecodeError
  | S f =>
      match s with
      | String q s' =>
          if Ascii.eqb q quote_c then
            match scan_string [] s' with
            | None => Stop JSONDecodeError
            | Some (k, r) =>
                match skip_ws r with
                | String c r2 =>
                    if Ascii.eqb c ":"%char then
                      match room with
                      | O => Stop RecursionError
                      | S below =>
                          match value f below (skip_ws r2) with
                          | Stop e => Stop e
                          | Got v r3 =>
                              match skip_ws r3 with
                              | String c3 r4 =>
                                  if Ascii.eqb c3 ","%char then
                                    pairs f room (dict_set k v acc) (skip_ws r4)
                                  else if Ascii.eqb c3 "}"%char then
                                    Got (JDict (dict_set k v acc)) r4
                                  else Stop JSONDecodeError
                              | EmptyString => Stop JSONDecodeError
                              end
                          end
                      end
                    else Stop JSONDecodeError
                | EmptyString => Stop JSONDecodeError
                end
            end
          else Stop JSONDecodeError
      | EmptyString => Stop JSONDecodeError
      end
  end.

(** What a call of [json.loads] gives. *)
Inductive Result :=
| Returns (v : Value)
| Raises (e : Error).

(** [json.loads(s)]: one value between optional white space, nothing after
    it. [room] is the number of levels of nesting the interpreter's recursion
    limit leaves to the decoder below the outermost value when it is called.
    A call nests at most once per character read, which bounds the fuel. *)
Definition loads (room : nat) (s : string) : Result :=
  match value (2 * String.length s + 2) room (skip_ws s) with
  | Got v r =>
      match skip_ws r with
      | EmptyString => Returns v
      | String _ _ => Raises JSONDecodeError
      end
  | Stop e => Raises e
  end.

End Json.

(** Modelled from the spec: the rendering of a [Response], returned by
    [Request.run], mirrors the one of a request: a status code attribute, the
    header entries, the body.  [Response.to_pretty_xml] is the library's;
    [State.step] drops the text it returns. *)
Definition Response_to_pretty_xml (r : Response) : string :=
  Codec.render 0
    (Codec.Elem "response" [("status_code", Py.str_of_int (Response_status_code r))]
       EmptyString
       (map Codec.Header_to_xml (Response_headers r)
        ++ [Codec.Elem "body" [] (Response_body r) []])).

(** ** Session state (lines 76-104)

    The [client] and [base_chat] fields are handles on the outside world;
    the world itself is threaded through the executions below. *)

Record State := mkState {
  State_max_actions : Z;
  State_goals : list string;
  State_next_actions : list Request;
  State_traffic : list (Request * Response)
}.

Definition set_next_actions (l : list Request) (s : State) : State :=
  mkState (State_max_actions s) (State_goals s) l (State_traffic s).

Definition append_traffic (p : Request * Response) (s : State) : State :=
  mkState (State_max_actions s) (State_goals s) (State_next_actions s)
    (State_traffic s ++ [p]).

(** One line of the traffic summary. *)
Definition traffic_line (p : Request * Response) : string :=
  Request_method (fst p) +:+ " " +:+ Request_path (fst p) +:+ " -> "
  +:+ Py.str_of_int (Response_status_code (snd p)).

Definition traffic_summary (self : State) : string :=
  Py.join Codec.nl (map traffic_line (State_traffic self)).

(** [a or b] on strings. *)
Definition str_or (a b : string) : string :=
  match a with EmptyString => b | _ => a end.

Definition active_goal (self : State) : string :=
  List.last (State_goals self) "Explore the app".

(** [State.get_prompt] (lines 91-104) *)
Definition State_get_prompt (self : State) : string :=
  let traffic := traffic_summary self in
  Codec.nl +:+ "# Traffic" +:+ Codec.nl
  +:+ str_or traffic "No traffic yet" +:+ Codec.nl
  +:+ Codec.nl
  +:+ "# Goal" +:+ Codec.nl
  +:+ active_goal self +:+ Codec.nl
  +:+ Codec.nl
  +:+ "# Actions" +:+ Codec.nl
  +:+ "Use the format below to send new HTTP requests." +:+ Codec.nl
  +:+ Codec.nl
  +:+ Request_xml_example +:+ Codec.nl.

(** ** The HTTP executor (lines 107-126) *)

(** The keyword arguments of [client.build_request]. [None] for [json] is
    [JNull]. *)
Record HttpxRequest := mkHttpxRequest {
  hx_method : string;
  hx_url : string;
  hx_headers : gmap string string;
  hx_content : option string;
  hx_json : Json.Value
}.

(** What the transport hands back: status code, header items, decoded
    text. *)
Record HttpxResponse := mkHttpxResponse {
  hr_status_code : Z;
  hr_headers : list (string * string);
  hr_text : string
}.

(** An exception raised by a call that leaves the program. *)
Inductive Exception := Raised (kind : string).

(** [try: json_body = json.loads(body) except JSONDecodeError: json_body =
    None] (lines 108-111): the value the statement leaves in [json_body], or
    the exception that leaves it, and [send_request] with it, when the
    decoder raises anything but its own [JSONDecodeError]. *)
Definition decode_body (room : nat) (body : string) : Exception + Json.Value :=
  match Json.loads room body with
  | Json.Returns v => inr v
  | Json.Raises Json.JSONDecodeError => inr Json.JNull
  | Json.Raises e => inl (Raised (Json.Error_name e))
  end.

(** [{h.name: h.value for h in headers}] *)
Definition headers_dict (headers : list Header) : gmap string string :=
  foldl (fun d h => <[Header_name h := Header_value h]> d) ∅ headers.

(** The call built by [client.build_request] (lines 113-119) from the
    request and the value of [json_body]. *)
Definition build_request (request : Request) (json_body : Json.Value) : HttpxRequest :=
  mkHttpxRequest
    (Request_method request)
    (Request_path request)
    (headers_dict (Request_headers request))
    (if negb (Json.truthy json_body) then Some (Request_body request) else None)
    json_body.

(** The first half of [send_request] (lines 108-119): the call it builds,
    or the exception of the decoder that leaves it before. *)
Definition call_of (room : nat) (request : Request) : Exception + HttpxRequest :=
  match decode_body room (Request_body request) with
  | inl e => inl e
  | inr json_body => inr (build_request request json_body)
  end.

(** The [Response] made of the transport's reply. *)
Definition Response_of_httpx (response : HttpxResponse) : Response :=
  Response_init (hr_status_code response)
    (Some (map (fun kv => Header_init (fst kv) (snd kv)) (hr_headers response)))
    (Some (hr_text response)).

(** What the run leaves behind, in order: the log records, the calls to the
    generation backend and to the transport with their outcome, and the
    decodings of a body that raised. *)
Inductive Event :=
| LogIteration (i n : Z)
| LogRunning (k : nat)
| LogSuccess (method path : string) (status : Z)
| Generated (prompt : string) (out : Exception + string)
| Sent (request : Request) (out : Exception + HttpxResponse)
| DecodeRaised (request : Request) (e : Exception).

(** The text of a log record. *)
Definition Event_message (ev : Event) : option string :=
  match ev with
  | LogIteration i n =>
      Some ("Iteration " +:+ Py.str_of_int i +:+ "/" +:+ Py.str_of_int n)
  | LogRunning k =>
      Some ("Running " +:+ Py.str_of_int (Z.of_nat k) +:+ " action(s)")
  | LogSuccess m p st =>
      Some (m +:+ " '" +:+ p +:+ "' -> " +:+ Py.str_of_int st)
  | _ => None
  end.

(** *** Reading a trace *)

(** The events of one executed action: the send and its log record. *)
Definition run_events (p : Request * HttpxResponse) : list Event :=
  [ Sent (fst p) (inr (snd p));
    LogSuccess (Request_method (fst p)) (Request_path (fst p))
      (Response_status_code (Response_of_httpx (snd p))) ].

(** The pairs of the sends that returned, in the order they were made. *)
Fixpoint sent_pairs (t : list Event) : list (Request * Response) :=
  match t with
  | [] => []
  | Sent r (inr response) :: rest => (r, Response_of_httpx response) :: sent_pairs rest
  | _ :: rest => sent_pairs rest
  end.

(** The requests handed to the transport, whatever the outcome. *)
Fixpoint attempted (t : list Event) : list Request :=
  match t with
  | [] => []
  | Sent r _ :: rest => r :: attempted rest
  | _ :: rest => attempted rest
  end.

(** The [i/n] of the iteration records. *)
Fixpoint iteration_records (t : list Event) : list (Z * Z) :=
  match t with
  | [] => []
  | LogIteration i n :: rest => (i, n) :: iteration_records rest
  | _ :: rest => iteration_records rest
  end.

Definition round_count (t : list Event) : nat := List.length (iteration_records t).

(** The prompts handed to the generation backend. *)
Fixpoint prompts (t : list Event) : list string :=
  match t with
  | [] => []
  | Generated p _ :: rest => p :: prompts rest
  | _ :: rest => prompts rest
  end.

(** The queue lengths announced by [step]. *)
Fixpoint running_records (t : list Event) : list nat :=
  match t with
  | [] => []
  | LogRunning k :: rest => k :: running_records rest
  | _ :: rest => running_records rest
  end.

(** Whether something recorded in the trace raised: a call to the
    generation backend, a call to the transport or the decoding of a body. *)
Fixpoint raised (t : list Event) : bool :=
  match t with
  | [] => false
  | Generated _ (inl _) :: _ => true
  | Sent _ (inl _) :: _ => true
  | DecodeRaised _ _ :: _ => true
  | _ :: rest => raised rest
  end.

(** How many actions were executed in each round: the sends that returned
    between one iteration record and the next. [cur] counts those of the
    round being read, [None] before the first iteration record. *)
Fixpoint executed_from (cur : option nat) (t : list Event) : list nat :=
  match t with
  | [] => match cur with Some k => [k] | None => [] end
  | LogIteration _ _ :: rest =>
      match cur with
      | Some k => k :: executed_from (Some O) rest
      | None => executed_from (Some O) rest
      end
  | Sent _ (inr _) :: rest =>
      executed_from (match cur with Some k => Some (S k) | None => None end) rest
  | _ :: rest => executed_from cur rest
  end.

Definition executed_per_round (t : list Event) : list nat := executed_from None t.

Section Agent.

Context {World : Type}.

(** The levels of nesting the interpreter's recursion limit leaves to the
    JSON decoder when [send_request] calls it. *)
Variable room : nat.
Variable client_send : HttpxRequest -> World -> (Exception + HttpxResponse) * World.
Variable generate : string -> World -> (Exception + string) * World.

Record Sys := mkSys {
  sys_state : State;
  sys_world : World;
  sys_trace : list Event
}.

(** Computations over the session: they read and write the state, move the
    world, extend the trace and may stop on an exception. *)
Definition M (A : Type) : Type := Sys -> (Exception + A) * Sys.

Definition ret {A} (a : A) : M A := fun s => (inr a, s).

Definition bind {A B} (c : M A) (k : A -> M B) : M B :=
  fun s =>
    match c s with
    | (inr a, s') => k a s'
    | (inl e, s') => (inl e, s')
    end.

Notation "x <- c ;; k" := (bind c (fun x => k))
  (at level 100, c at next level, right associativity).
Notation "c ;;; k" := (bind c (fun _ => k))
  (at level 100, right associativity).

Definition get_state : M State := fun s => (inr (sys_state s), s).

Definition modify_state (f : State -> State) : M unit :=
  fun s => (inr tt, mkSys (f (sys_state s)) (sys_world s) (sys_trace s)).

Definition emit (ev : Event) : M unit :=
  fun s => (inr tt, mkSys (sys_state s) (sys_world s) (sys_trace s ++ [ev])).

(** [for x in l: body(x)] *)
Fixpoint for_each {A} (l : list A) (body : A -> M unit) : M unit :=
  match l with
  | [] => ret tt
  | x :: rest => body x ;;; for_each rest body
  end.

(** [send_request] (lines 107-126). The body is decoded first: an exception
    of the decoder other than [JSONDecodeError] leaves [send_request] before
    the call is built and before anything is handed to the transport.
    Building the call and sending it are one step of the world: an exception
    of either leaves the same way. *)
Definition send_request (request : Request) : M Response :=
  fun s =>
    match call_of room request with
    | inl e =>
        (inl e, mkSys (sys_state s) (sys_world s)
                  (sys_trace s ++ [DecodeRaised request e]))
    | inr call =>
        let '(out, w) := client_send call (sys_world s) in
        let s' := mkSys (sys_state s) w (sys_trace s ++ [Sent request out]) in
        match out with
        | inl e => (inl e, s')
        | inr response => (inr (Response_of_httpx response), s')
        end
    end.

(** The reply to an action whose body decodes and whose send returns, with
    the world after it. *)
Definition reply_of (request : Request) (w : World) : option (HttpxResponse * World) :=
  match call_of room request with
  | inl _ => None
  | inr call =>
      match client_send call w with
      | (inr response, w') => Some (response, w')
      | (inl _, _) => None
      end
  end.

(** The exception of an action that fails, with the world after it and the
    event it leaves: the decoding of its body raised, nothing being sent, or
    its send raised. *)
Definition failure_of (request : Request) (w : World)
    : option (Exception * World * Event) :=
  match call_of room request with
  | inl e => Some (e, w, DecodeRaised request e)
  | inr call =>
      match client_send call w with
      | (inl e, w') => Some (e, w', Sent request (inl e))
      | (inr _, _) => None
      end
  end.

(** [Request.run] (lines 63-67) *)
Definition Request_run (self : Request) : M string :=
  response <- send_request self ;;
  emit (LogSuccess (Request_method self) (Request_path self)
          (Response_status_code response)) ;;;
  modify_state (append_traffic (self, response)) ;;;
  ret (Response_to_pretty_xml response).

(** [State.step] (lines 85-89) *)
Definition State_step : M unit :=
  self <- get_state ;;
  emit (LogRunning (List.length (State_next_actions self))) ;;;
  for_each (State_next_actions self) (fun action => Request_run action ;;; ret tt) ;;;
  modify_state (set_next_actions []).

(** The callback [parse] (lines 157-160), on the text of the completion. *)
Definition parse (max_actions : Z) (completion : string) : M unit :=
  let parsed := Codec.try_parse_many completion in
  let actions := match parsed with [] => [] | _ => parsed end in
  modify_state (set_next_actions (Py.slice_to actions max_actions)).

(** The call to the generation backend with the prompt. *)
Definition chat_run (prompt : string) : M string :=
  fun s =>
    let '(out, w) := generate prompt (sys_world s) in
    let s' := mkSys (sys_state s) w (sys_trace s ++ [Generated prompt out]) in
    match out with
    | inl e => (inl e, s')
    | inr completion => (inr completion, s')
    end.

(** One round of the loop body (lines 155-163). *)
Definition round (iterations max_actions i : Z) : M unit :=
  emit (LogIteration (i + 1) iterations) ;;;
  self <- get_state ;;
  completion <- chat_run (State_get_prompt self) ;;
  parse max_actions completion ;;;
  State_step.

(** [agent_loop] (lines 153-163) *)
Definition agent_loop (iterations max_actions : Z) : M unit :=
  for_each (Py.range iterations) (round iterations max_actions).

(** The replies of the transport to a queue of requests sent in order from
    the world [w], when every body decodes and none of the sends raises. *)
Fixpoint sends_ok (requests : list Request) (w : World)
    : option (list HttpxResponse * World) :=
  match requests with
  | [] => Some ([], w)
  | r :: rest =>
      match reply_of r w with
      | Some (response, w') =>
          match sends_ok rest w' with
          | Some (rs, w'') => Some (response :: rs, w'')
          | None => None
          end
      | None => None
      end
  end.

(** What a run has added to the trace of the system it started from. *)
Definition new_trace (before after : Sys) : list Event :=
  skipn (List.length (sys_trace before)) (sys_trace after).

(** The state [cli] creates (line 151) and the run from it. *)
Definition initial_state (goal : string) (max_actions : Z) : State :=
  mkState max_actions [goal] [] [].

Definition cli (goal : string) (iterations max_actions : Z) (w : World)
    : (Exception + unit) * Sys :=
  agent_loop iterations max_actions (mkSys (initial_state goal max_actions) w []).

End Agent.

Arguments Sys : clear implicits.

(** ** A scripted world

    The generation backend and the transport answer from two lists, one
    entry per call, and raise once their list is used up. *)

Record Script := mkScript {
  completions : list (Exception + string);
  replies : list (Exception + HttpxResponse)
}.

Definition script_generate (prompt : string) (w : Script)
    : (Exception + string) * Script :=
  match completions w with
  | [] => (inl (Raised "StopIteration"), w)
  | c :: rest => (c, mkScript rest (replies w))
  end.

(** The room the scripted interpreter leaves to the decoder. *)
Definition script_room : nat := 900.

Definition script_send (call : HttpxRequest) (w : Script)
    : (Exception + HttpxResponse) * Script :=
  match replies w with
  | [] => (inl (Raised "ConnectError"), w)
  | r :: rest => (r, mkScript (completions w) rest)
  end.

(** Three actions as a model would write them, inside commentary. *)
Definition get_a : Request := Request_init "GET" "/a" None None None.
Definition get_b : Request := Request_init "GET" "/b" None None None.
Definition post_c : Request := Request_init "POST" "/c" None None (Some "[]").

Definition three_actions : string :=
  "I will try these." +:+ Codec.nl
  +:+ Codec.to_pretty_xml get_a +:+ Codec.nl
  +:+ Codec.to_pretty_xml get_b +:+ Codec.nl
  +:+ Codec.to_pretty_xml post_c +:+ Codec.nl
  +:+ "Done.".

Definition ok_200 : HttpxResponse := mkHttpxResponse 200 [("Content-Type", "text/html")] "ok".

Definition empty_sys (max_actions : Z) (w : Script) : Sys Script :=
  mkSys (initial_state "Explore all endpoints in the app." max_actions) w [].

(** A request whose body is the JSON text of an empty list. *)
Definition empty_list_body : Request :=
  Request_init "POST" "/api/items" None None (Some "[]").

(** Two headers of the same name, and one of another. *)
Definition duplicate_headers : Request :=
  Request_init "GET" "/" 
    (Some [Header_init "Accept" "text/html"; Header_init "X-Id" "1";
           Header_init "Accept" "application/json"])
    None None.

(** The traffic grown by some pairs. *)
Definition add_traffic (ps : list (Request * Response)) (s : State) : State :=
  mkState (State_max_actions s) (State_goals s) (State_next_actions s)
    (State_traffic s ++ ps).

(** A string that neither starts nor ends with white space. *)
Definition trimmed (s : string) : Prop :=
  Py.starts_with_space s = false /\ Py.ends_with_space s = false.

(** An action written with a lower-case method and padded values. *)
Definition padded_action : string :=
  "<request method=" +:+ Codec.quote +:+ "post" +:+ Codec.quote
  +:+ " path=" +:+ Codec.quote +:+ "/login" +:+ Codec.quote +:+ ">"
  +:+ "<headers><header name=" +:+ Codec.quote +:+ "X-Token" +:+ Codec.quote
  +:+ ">  abc  </header></headers>"
  +:+ "<body>" +:+ Codec.nl +:+ "  user=admin  " +:+ Codec.nl +:+ "</body>"
  +:+ "</request>".

Definition padded_request : Request :=
  mkRequest "POST" "/login" [mkHeader "X-Token" "abc"] [] "user=admin".

(** Two states that differ only in the queue and the cap. *)
Definition seen_state : State :=
  mkState 2 ["Explore all endpoints in the app."; "Find the login form"] []
    [(get_a, Response_of_httpx ok_200);
     (post_c, Response_init 404 None (Some "not found"))].

Definition seen_state_queued : State :=
  mkState 5 (State_goals seen_state) [get_b] (State_traffic seen_state).

(** A world whose generation backend proposes the three actions, twice, and
    whose transport answers twice and then fails. *)
Definition three_twice (replies : list (Exception + HttpxResponse)) : Script :=
  mkScript [inr three_actions; inr three_actions] replies.

Definition no_world : Script := mkScript [] [].

(** A session with the three actions queued and one earlier pair. *)
Definition queued_sys (replies : list (Exception + HttpxResponse)) : Sys Script :=
  mkSys (mkState 3 ["Explore all endpoints in the app."] [get_a; get_b; post_c]
           [(get_a, Response_of_httpx ok_200)])
    (mkScript [] replies) [].

(** A world whose backend first proposes nothing, then the three actions. *)
Definition idle_then_three (replies : list (Exception + HttpxResponse)) : Script :=
  mkScript [inr "Nothing to try yet."; inr three_actions] replies.

(** The [method 'path' -> status] of the success records. *)
Fixpoint success_records (t : list Event) : list (string * string * Z) :=
  match t with
  | [] => []
  | LogSuccess m p st :: rest => (m, p, st) :: success_records rest
  | _ :: rest => success_records rest
  end.

(** The first exception recorded in the trace: of a call to the generation
    backend, of a call to the transport or of the decoding of a body. *)
Fixpoint first_raised (t : list Event) : option Exception :=
  match t with
  | [] => None
  | Generated _ (inl e) :: _ => Some e
  | Sent _ (inl e) :: _ => Some e
  | DecodeRaised _ e :: _ => Some e
  | _ :: rest => first_raised rest
  end.

(** What a pair of the traffic shows in a success record. *)
Definition success_of (p : Request * Response) : string * string * Z :=
  (Request_method (fst p), Request_path (fst p), Response_status_code (snd p)).

(** [c * n] for a character. *)
Fixpoint times (n : nat) (c : ascii) : string :=
  match n with
  | O => EmptyString
  | S k => String c (times k c)
  end.

(** A request whose body is an integer literal of 4301 digits. *)
Definition long_integer_body : Request :=
  Request_init "POST" "/count" None None (Some (times 4301 "7")).

(** A request whose body is a thousand nested lists. *)
Definition deep_list_body : Request :=
  Request_init "POST" "/tree" None None (Some (times 1000 "[" +:+ times 1000 "]")).

(** * Properties *)

(** ** Strings *)

Lemma is_lower_upper_char c : Py.is_lower (Py.upper_char c) = false.
Proof. destruct c as [[] [] [] [] [] [] [] []]; reflexivity. Qed.

Lemma upper_no_lower s : Py.has_lower (Py.upper s) = false.
Proof.
  induction s as [|c s IH]; simpl; [reflexivity|].
  now rewrite is_lower_upper_char, IH.
Qed.

Lemma upper_length s : String.length (Py.upper s) = String.length s.
Proof. induction s as [|c s IH]; simpl; congruence. Qed.

Lemma lstrip_no_leading s : Py.starts_with_space (Py.lstrip s) = false.
Proof.
  induction s as [|c s IH]; simpl; [reflexivity|].
  destruct (Py.is_space c) eqn:E; [exact IH|]. simpl. exact E.
Qed.

Lemma rstrip_no_trailing s : Py.ends_with_space (Py.rstrip s) = false.
Proof.
  induction s as [|c s IH]; simpl; [reflexivity|].
  destruct (Py.rstrip s) as [|d r] eqn:E.
  - destruct (Py.is_space c) eqn:Ec; simpl; [reflexivity|exact Ec].
  - exact IH.
Qed.

Lemma rstrip_keeps_head s :
  Py.starts_with_space s = false -> Py.starts_with_space (Py.rstrip s) = false.
Proof.
  destruct s as [|c s]; simpl; [reflexivity|]. intros Hc.
  destruct (Py.rstrip s); [rewrite Hc|]; simpl; exact Hc.
Qed.

Lemma strip_trimmed s : trimmed (Py.strip s).
Proof.
  split; unfold Py.strip.
  - apply rstrip_keeps_head, lstrip_no_leading.
  - apply rstrip_no_trailing.
Qed.

Lemma append_cons c a b : String c a +:+ b = String c (a +:+ b).
Proof. reflexivity. Qed.

Lemma append_nil b : EmptyString +:+ b = b.
Proof. reflexivity. Qed.

(** Stripping only removes white space at both ends. *)
Lemma lstrip_split s :
  exists pre, s = pre +:+ Py.lstrip s /\ Py.all_space pre = true.
Proof.
  induction s as [|c s (pre & Hs & Hp)]; simpl.
  - exists EmptyString. split; reflexivity.
  - destruct (Py.is_space c) eqn:E.
    + exists (String c pre). rewrite append_cons. simpl. rewrite E, Hp.
      split; [f_equal; exact Hs|reflexivity].
    + exists EmptyString. split; reflexivity.
Qed.

Lemma rstrip_split s :
  exists post, s = Py.rstrip s +:+ post /\ Py.all_space post = true.
Proof.
  induction s as [|c s (post & Hs & Hp)]; simpl.
  - exists EmptyString. split; reflexivity.
  - destruct (Py.rstrip s) as [|d r] eqn:E.
    + rewrite append_nil in Hs. destruct (Py.is_space c) eqn:Ec.
      * exists (String c post). rewrite append_nil. simpl. rewrite Ec, Hp.
        split; [f_equal; exact Hs|reflexivity].
      * exists post. rewrite append_cons, append_nil. split; [f_equal; exact Hs|exact Hp].
    + exists post. split; [|exact Hp]. rewrite append_cons. f_equal. exact Hs.
Qed.

Lemma strip_split s :
  exists pre post,
    s = pre +:+ Py.strip s +:+ post
    /\ Py.all_space pre = true /\ Py.all_space post = true.
Proof.
  destruct (lstrip_split s) as (pre & Hs & Hp).
  destruct (rstrip_split (Py.lstrip s)) as (post & Hr & Hq).
  exists pre, post. unfold Py.strip. rewrite <- Hr. auto.
Qed.

(** ** The codec *)

(** C1 - Round trip on the canonical example: parsing the text rendered by
    [Request.xml_example] yields exactly one request, equal to the example
    instance: method GET, path /$path, one header X-Header=my-value, one url
    parameter name=test-param, body $body. *)
Theorem xml_example_round_trip :
  Codec.try_parse_many Request_xml_example = [Request_example]
  /\ Request_example
     = mkRequest "GET" "/$path" [mkHeader "X-Header" "my-value"]
         [mkParameter "name" "test-param"] "$body".
Proof. split; vm_compute; reflexivity. Qed.

(** ** The executor: body dispatch *)

Lemma build_request_json room request v :
  Json.loads room (Request_body request) = Json.Returns v -> Json.truthy v = true ->
  exists call,
    call_of room request = inr call
    /\ hx_content call = None /\ hx_json call = v.
Proof.
  intros Hl Ht. unfold call_of, decode_body. rewrite Hl.
  eexists. split; [reflexivity|]. simpl. now rewrite Ht.
Qed.

Lemma build_request_raw room request :
  Json.loads room (Request_body request) = Json.Raises Json.JSONDecodeError ->
  exists call,
    call_of room request = inr call
    /\ hx_content call = Some (Request_body request)
    /\ hx_json call = Json.JNull.
Proof.
  intros Hl. unfold call_of, decode_body. rewrite Hl.
  eexists. split; [reflexivity|]. simpl. auto.
Qed.

Lemma build_request_falsy room request v :
  Json.loads room (Request_body request) = Json.Returns v -> Json.truthy v = false ->
  exists call,
    call_of room request = inr call
    /\ hx_content call = Some (Request_body request)
    /\ hx_json call = v.
Proof.
  intros Hl Ht. unfold call_of, decode_body. rewrite Hl.
  eexists. split; [reflexivity|]. simpl. now rewrite Ht.
Qed.

(** C2 - Body dispatch at a body that is valid JSON but false as a truth
    value, the empty list: the body parses, yet the call is built with the
    raw text as content next to the parsed value as JSON payload. *)
Theorem send_request_empty_list_body room :
  Json.loads room (Request_body empty_list_body) = Json.Returns (Json.JList [])
  /\ call_of room empty_list_body
     = inr (build_request empty_list_body (Json.JList []))
  /\ hx_content (build_request empty_list_body (Json.JList [])) = Some "[]"
  /\ hx_json (build_request empty_list_body (Json.JList [])) = Json.JList [].
Proof. repeat split; vm_compute; reflexivity. Qed.

(** ** The codec: normalisation on parse *)

Lemma keep_some_In {A B} (f : A -> option B) l y :
  In y (Codec.keep_some f l) -> exists x, In x l /\ f x = Some y.
Proof.
  induction l as [|a l IH]; simpl; [tauto|].
  destruct (f a) eqn:E.
  - intros [<-|H]; [exists a; auto|].
    destruct (IH H) as (x & Hx & Hf). exists x; auto.
  - intros H. destruct (IH H) as (x & Hx & Hf). exists x; auto.
Qed.

Lemma all_some_map {A B} (f : A -> option B) l ys :
  Codec.all_some f l = Some ys -> map f l = map Some ys.
Proof.
  revert ys. induction l as [|a l IH]; simpl; intros ys.
  - intros [= <-]. reflexivity.
  - destruct (f a) eqn:E; [|discriminate].
    destruct (Codec.all_some f l) eqn:El; [|discriminate].
    intros [= <-]. simpl. f_equal. now apply IH.
Qed.

Lemma headers_of_section kids hs :
  Codec.all_some Codec.Header_from_xml kids = Some hs ->
  map Header_value hs = map (fun k => Py.strip (Codec.text_of k)) kids
  /\ Forall (fun h => trimmed (Header_value h)) hs.
Proof.
  revert hs. induction kids as [|k kids IH]; simpl; intros hs.
  - intros [= <-]. split; constructor.
  - destruct (Codec.Header_from_xml k) as [h|] eqn:E; [|discriminate].
    destruct (Codec.all_some Codec.Header_from_xml kids) as [l|] eqn:El; [|discriminate].
    intros [= <-]. destruct (IH l eq_refl) as [Hm Hf].
    unfold Codec.Header_from_xml in E.
    destruct (String.eqb _ _); [|discriminate].
    destruct (Codec.attr _ _); [|discriminate].
    injection E as <-. simpl. split.
    + f_equal. exact Hm.
    + constructor; [apply strip_trimmed|exact Hf].
Qed.

Lemma params_of_section kids ps :
  Codec.all_some Codec.Parameter_from_xml kids = Some ps ->
  map Parameter_value ps = map (fun k => Py.strip (Codec.text_of k)) kids
  /\ Forall (fun p => trimmed (Parameter_value p)) ps.
Proof.
  revert ps. induction kids as [|k kids IH]; simpl; intros ps.
  - intros [= <-]. split; constructor.
  - destruct (Codec.Parameter_from_xml k) as [h|] eqn:E; [|discriminate].
    destruct (Codec.all_some Codec.Parameter_from_xml kids) as [l|] eqn:El; [|discriminate].
    intros [= <-]. destruct (IH l eq_refl) as [Hm Hf].
    unfold Codec.Parameter_from_xml in E.
    destruct (String.eqb _ _); [|discriminate].
    destruct (Codec.attr _ _); [|discriminate].
    injection E as <-. simpl. split.
    + f_equal. exact Hm.
    + constructor; [apply strip_trimmed|exact Hf].
Qed.

Lemma trimmed_empty : trimmed EmptyString.
Proof. split; reflexivity. Qed.

(** What validation makes of the raw fields of one block. *)
Lemma raw_of_xml_fields e x :
  Codec.raw_of_xml e = Some x ->
  let r := Codec.Request_of_raw x in
  Codec.attr "method" (Codec.attrs_of e) = Some (Codec.raw_method x)
  /\ Request_method r = Py.upper (Codec.raw_method x)
  /\ (forall w, Codec.child "headers" (Codec.children_of e) = Some w ->
        map Header_value (Request_headers r)
        = map (fun k => Py.strip (Codec.text_of k)) (Codec.children_of w))
  /\ (forall w, Codec.child "url_params" (Codec.children_of e) = Some w ->
        map Parameter_value (Request_url_params r)
        = map (fun k => Py.strip (Codec.text_of k)) (Codec.children_of w))
  /\ (forall b, Codec.child "body" (Codec.children_of e) = Some b ->
        Request_body r = Py.strip (Codec.text_of b))
  /\ Forall (fun h => trimmed (Header_value h)) (Request_headers r)
  /\ Forall (fun p => trimmed (Parameter_value p)) (Request_url_params r)
  /\ trimmed (Request_body r)
  /\ (Codec.child "headers" (Codec.children_of e) = None -> Request_headers r = [])
  /\ (Codec.child "url_params" (Codec.children_of e) = None ->
        Request_url_params r = [])
  /\ (Codec.child "body" (Codec.children_of e) = None ->
        Request_body r = EmptyString).
Proof.
  unfold Codec.raw_of_xml, Codec.wrapped.
  destruct (String.eqb _ _); [|discriminate].
  destruct (Codec.attr "method" _) as [m|]; [|discriminate].
  destruct (Codec.attr "path" _) as [p|]; [|discriminate].
  destruct (Codec.child "headers" _) as [wh|] eqn:Eh;
    [destruct (Codec.all_some Codec.Header_from_xml _) as [hs|] eqn:Ehs; [|discriminate]|];
  (destruct (Codec.child "url_params" _) as [wp|] eqn:Ep;
    [destruct (Codec.all_some Codec.Parameter_from_xml _) as [ps|] eqn:Eps; [|discriminate]|]);
  intros [= <-]; cbv zeta; unfold Codec.Request_of_raw, Request_init; simpl;
  repeat match goal with
  | H : Codec.all_some Codec.Header_from_xml _ = Some _ |- _ =>
      apply headers_of_section in H; destruct H
  | H : Codec.all_some Codec.Parameter_from_xml _ = Some _ |- _ =>
      apply params_of_section in H; destruct H
  end;
  (repeat split; try (intros; congruence); auto;
   try (intros ? [= <-]; assumption);
   try (destruct (Codec.child "body" _); simpl;
        [apply strip_trimmed | apply trimmed_empty]);
   try (intros b ->; reflexivity);
   try (intros ->; reflexivity)).
Qed.

(** C6 - Every parsed request comes from a block of the input; its method
    is the upper-cased method text of the block, its header values, url
    parameter values and body are the stripped texts and so are trimmed, and
    an absent headers section, url_params section or body yields the empty
    list, the empty list and the empty string. *)
Theorem parsed_request_normalized text r :
  In r (Codec.try_parse_many text) ->
  exists e x,
    In e (Codec.blocks (Codec.tokens text 0) 0)
    /\ Codec.raw_of_xml e = Some x
    /\ r = Codec.Request_of_raw x
    /\ Codec.attr "method" (Codec.attrs_of e) = Some (Codec.raw_method x)
    /\ Request_method r = Py.upper (Codec.raw_method x)
    /\ Py.has_lower (Request_method r) = false
    /\ (forall w, Codec.child "headers" (Codec.children_of e) = Some w ->
          map Header_value (Request_headers r)
          = map (fun k => Py.strip (Codec.text_of k)) (Codec.children_of w))
    /\ (forall w, Codec.child "url_params" (Codec.children_of e) = Some w ->
          map Parameter_value (Request_url_params r)
          = map (fun k => Py.strip (Codec.text_of k)) (Codec.children_of w))
    /\ (forall b, Codec.child "body" (Codec.children_of e) = Some b ->
          Request_body r = Py.strip (Codec.text_of b))
    /\ Forall (fun h => trimmed (Header_value h)) (Request_headers r)
    /\ Forall (fun p => trimmed (Parameter_value p)) (Request_url_params r)
    /\ trimmed (Request_body r)
    /\ (Codec.child "headers" (Codec.children_of e) = None -> Request_headers r = [])
    /\ (Codec.child "url_params" (Codec.children_of e) = None ->
          Request_url_params r = [])
    /\ (Codec.child "body" (Codec.children_of e) = None ->
          Request_body r = EmptyString).
Proof.
  unfold Codec.try_parse_many, Codec.Request_from_xml. intros Hin.
  apply keep_some_In in Hin. destruct Hin as (e & He & Hf).
  destruct (Codec.raw_of_xml e) as [x|] eqn:Ex; [|discriminate].
  injection Hf as <-.
  pose proof (raw_of_xml_fields e x Ex) as H. cbv zeta in H.
  destruct H as (H1 & H2 & H3 & H4 & H5 & H6 & H7 & H8 & H9 & H10 & H11).
  pose proof (upper_no_lower (Codec.raw_method x)) as Hl. rewrite <- H2 in Hl.
  exists e, x.
  exact (conj He (conj Ex (conj eq_refl (conj H1 (conj H2 (conj Hl
         (conj H3 (conj H4 (conj H5 (conj H6 (conj H7 (conj H8
         (conj H9 (conj H10 H11)))))))))))))).
Qed.

(** The statement at an action written with a lower-case method and padded
    values. *)
Lemma parsed_request_normalized_witness :
  In padded_request (Codec.try_parse_many padded_action)
  /\ Py.has_lower (Request_method padded_request) = false
  /\ Forall (fun h => trimmed (Header_value h)) (Request_headers padded_request)
  /\ trimmed (Request_body padded_request)
  /\ Request_url_params padded_request = [].
Proof.
  assert (Hin : In padded_request (Codec.try_parse_many padded_action))
    by (vm_compute; left; reflexivity).
  split; [exact Hin|].
  destruct (parsed_request_normalized padded_action padded_request Hin)
    as (e & x & _ & _ & _ & _ & _ & Hl & _ & _ & _ & Hh & _ & Hb & _).
  repeat split; try assumption; apply Hb.
Defined.

(** ** Prompt construction *)

Lemma append_nonempty_l a b : a <> EmptyString -> a +:+ b <> EmptyString.
Proof. destruct a; [congruence|]. intros _. rewrite append_cons. discriminate. Qed.

Lemma append_nonempty_r a b : b <> EmptyString -> a +:+ b <> EmptyString.
Proof.
  destruct a; [rewrite append_nil; auto|]. intros _. rewrite append_cons. discriminate.
Qed.

Lemma traffic_line_nonempty p : traffic_line p <> EmptyString.
Proof.
  unfold traffic_line. apply append_nonempty_r, append_nonempty_l. discriminate.
Qed.

Lemma join_nonempty sep x rest :
  x <> EmptyString -> Py.join sep (x :: rest) <> EmptyString.
Proof.
  intros Hx. destruct rest; simpl; [exact Hx|]. now apply append_nonempty_l.
Qed.

Lemma str_or_nonempty a b : a <> EmptyString -> str_or a b = a.
Proof. destruct a; [congruence|reflexivity]. Qed.

Lemma last_rev {A} (l : list A) d :
  List.last l d = match rev l with x :: _ => x | [] => d end.
Proof.
  induction l as [|x l _] using rev_ind; [reflexivity|].
  rewrite List.last_last, rev_unit. reflexivity.
Qed.

(** The traffic section is the placeholder exactly when there is no
    traffic, the joined lines otherwise. *)
Lemma traffic_section self :
  str_or (traffic_summary self) "No traffic yet"
  = match State_traffic self with
    | [] => "No traffic yet"
    | _ => Py.join Codec.nl (map traffic_line (State_traffic self))
    end.
Proof.
  unfold traffic_summary. destruct (State_traffic self) as [|p ps]; [reflexivity|].
  apply str_or_nonempty. simpl map. apply join_nonempty, traffic_line_nonempty.
Qed.

(** C8 - [get_prompt] is a function of the traffic and the goals only: equal
    states give equal prompts. The prompt holds one line per traffic pair,
    [METHOD path -> status], in traffic order, or the placeholder when there
    is no traffic; then the last goal of the stack, or the default goal when
    the stack is empty; then the canonical action example. *)
Theorem get_prompt_deterministic (s1 s2 : State)
    (Ht : State_traffic s1 = State_traffic s2)
    (Hg : State_goals s1 = State_goals s2) :
  State_get_prompt s1 = State_get_prompt s2
  /\ State_get_prompt s1
     = Codec.nl +:+ "# Traffic" +:+ Codec.nl
       +:+ match State_traffic s1 with
           | [] => "No traffic yet"
           | _ => Py.join Codec.nl (map traffic_line (State_traffic s1))
           end +:+ Codec.nl
       +:+ Codec.nl
       +:+ "# Goal" +:+ Codec.nl
       +:+ match rev (State_goals s1) with
           | goal :: _ => goal
           | [] => "Explore the app"
           end +:+ Codec.nl
       +:+ Codec.nl
       +:+ "# Actions" +:+ Codec.nl
       +:+ "Use the format below to send new HTTP requests." +:+ Codec.nl
       +:+ Codec.nl
       +:+ Codec.to_pretty_xml Request_example +:+ Codec.nl
  /\ (forall r res,
        traffic_line (r, res)
        = Request_method r +:+ " " +:+ Request_path r +:+ " -> "
          +:+ Py.str_of_int (Response_status_code res)).
Proof.
  split; [|split].
  - unfold State_get_prompt, traffic_summary, active_goal. now rewrite Ht, Hg.
  - unfold State_get_prompt. rewrite traffic_section.
    unfold active_goal. rewrite last_rev. reflexivity.
  - reflexivity.
Qed.

(** Two states with the same traffic and goals, a different queue and cap. *)
Lemma get_prompt_deterministic_witness :
  State_get_prompt seen_state = State_get_prompt seen_state_queued
  /\ Py.join Codec.nl (map traffic_line (State_traffic seen_state))
     = "GET /a -> 200" +:+ Codec.nl +:+ "POST /c -> 404".
Proof.
  split.
  - apply (get_prompt_deterministic seen_state seen_state_queued); reflexivity.
  - vm_compute. reflexivity.
Defined.

(** ** The executor: forwarded headers *)

Lemma headers_dict_other (headers : list Header) (d : gmap string string) name :
  (forall h, In h headers -> Header_name h <> name) ->
  foldl (fun d h => <[Header_name h := Header_value h]> d) d headers !! name
  = d !! name.
Proof.
  revert d. induction headers as [|h headers IH]; intros d Hne; simpl; [reflexivity|].
  rewrite IH by (intros h' Hh'; apply Hne; now right).
  apply lookup_insert_ne, Hne. now left.
Qed.

(** C9 - The header mapping forwarded to the transport gives a name the
    value of the last header of the list with that name: a header followed
    by no header of the same name is forwarded with its own value, whatever
    comes before it. In particular headers with distinct names are all
    forwarded with their own values. *)
Theorem headers_last_write_wins (request : Request) json_body pre h post
    (Hsplit : Request_headers request = pre ++ h :: post)
    (Hlast : forall h', In h' post -> Header_name h' <> Header_name h) :
  hx_headers (build_request request json_body) !! Header_name h
  = Some (Header_value h).
Proof.
  unfold build_request, headers_dict. simpl. rewrite Hsplit, foldl_app. simpl.
  rewrite headers_dict_other by exact Hlast. apply lookup_insert_eq.
Qed.

(** Of two headers named Accept the second one is forwarded; the header
    named X-Id between them keeps its value. *)
Lemma headers_last_write_wins_witness :
  hx_headers (build_request duplicate_headers Json.JNull) !! "Accept"
  = Some "application/json"
  /\ hx_headers (build_request duplicate_headers Json.JNull) !! "X-Id" = Some "1".
Proof.
  split.
  - apply (headers_last_write_wins duplicate_headers Json.JNull
             [Header_init "Accept" "text/html"; Header_init "X-Id" "1"]
             (Header_init "Accept" "application/json") []).
    + reflexivity.
    + intros h' [].
  - apply (headers_last_write_wins duplicate_headers Json.JNull
             [Header_init "Accept" "text/html"]
             (Header_init "X-Id" "1")
             [Header_init "Accept" "application/json"]).
    + reflexivity.
    + intros h' [<-|[]]. vm_compute. discriminate.
Defined.

(** ** Reading a trace: the observers distribute over concatenation *)

Lemma sent_pairs_app a b : sent_pairs (a ++ b) = sent_pairs a ++ sent_pairs b.
Proof.
  induction a as [|ev a IH]; [reflexivity|].
  destruct ev as [| | | |r [e|resp]|]; simpl; rewrite IH; reflexivity.
Qed.

Lemma attempted_app a b : attempted (a ++ b) = attempted a ++ attempted b.
Proof.
  induction a as [|ev a IH]; [reflexivity|].
  destruct ev; simpl; rewrite IH; reflexivity.
Qed.

Lemma iteration_records_app a b :
  iteration_records (a ++ b) = iteration_records a ++ iteration_records b.
Proof.
  induction a as [|ev a IH]; [reflexivity|].
  destruct ev; simpl; rewrite IH; reflexivity.
Qed.

Lemma prompts_app a b : prompts (a ++ b) = prompts a ++ prompts b.
Proof.
  induction a as [|ev a IH]; [reflexivity|].
  destruct ev; simpl; rewrite IH; reflexivity.
Qed.

Lemma running_records_app a b :
  running_records (a ++ b) = running_records a ++ running_records b.
Proof.
  induction a as [|ev a IH]; [reflexivity|].
  destruct ev; simpl; rewrite IH; reflexivity.
Qed.

Lemma raised_app a b : raised (a ++ b) = raised a || raised b.
Proof.
  induction a as [|ev a IH]; [reflexivity|].
  destruct ev as [| | |p [e|c]|r [e|resp]|]; simpl; auto.
Qed.

Lemma round_count_app a b : round_count (a ++ b) = (round_count a + round_count b)%nat.
Proof. unfold round_count. now rewrite iteration_records_app, length_app. Qed.

(** The events of a run of executed actions. *)
Lemma run_events_sent_pairs (ps : list (Request * HttpxResponse)) :
  sent_pairs (flat_map run_events ps)
  = map (fun p => (fst p, Response_of_httpx (snd p))) ps.
Proof. induction ps as [|[r resp] ps IH]; simpl; [reflexivity|]. now rewrite IH. Qed.

Lemma run_events_attempted (ps : list (Request * HttpxResponse)) :
  attempted (flat_map run_events ps) = map fst ps.
Proof. induction ps as [|[r resp] ps IH]; simpl; [reflexivity|]. now rewrite IH. Qed.

Lemma run_events_quiet (ps : list (Request * HttpxResponse)) :
  iteration_records (flat_map run_events ps) = []
  /\ prompts (flat_map run_events ps) = []
  /\ running_records (flat_map run_events ps) = []
  /\ raised (flat_map run_events ps) = false.
Proof. induction ps as [|[r resp] ps IH]; simpl; auto. Qed.

Lemma combine_map_snd {A B C} (f : B -> C) (l : list A) (rs : list B) :
  combine l (map f rs) = map (fun p => (fst p, f (snd p))) (combine l rs).
Proof.
  revert rs. induction l as [|x l IH]; intros [|r rs]; simpl; [reflexivity..|].
  now rewrite IH.
Qed.



(** ** Executing actions *)

Section AgentFacts.

Context {World : Type}.
Variable room : nat.
Variable client_send : HttpxRequest -> World -> (Exception + HttpxResponse) * World.
Variable generate : string -> World -> (Exception + string) * World.

Local Abbreviation run_action := (fun action : Request =>
  bind (Request_run room client_send action) (fun _ => ret tt)).

Lemma add_traffic_nil st : add_traffic [] st = st.
Proof. destruct st. unfold add_traffic. simpl. now rewrite app_nil_r. Qed.

Lemma add_traffic_add ps qs st :
  add_traffic qs (add_traffic ps st) = add_traffic (ps ++ qs) st.
Proof. unfold add_traffic. simpl. now rewrite app_assoc. Qed.

Lemma new_trace_app (s s' : Sys World) new :
  sys_trace s' = sys_trace s ++ new -> new_trace s s' = new.
Proof. intros H. unfold new_trace. rewrite H. apply drop_app_length. Qed.

(** The parse callback always returns; it only replaces the queue. *)
Lemma parse_spec max_actions completion (s : Sys World) :
  parse max_actions completion s
  = (inr tt,
     mkSys (set_next_actions
              (Py.slice_to (Codec.try_parse_many completion) max_actions)
              (sys_state s))
       (sys_world s) (sys_trace s)).
Proof.
  unfold parse, modify_state.
  destruct (Codec.try_parse_many completion); reflexivity.
Qed.

(** One action whose body decodes and whose send returns. *)
Lemma run_ok self (s : Sys World) response w :
  reply_of room client_send self (sys_world s) = Some (response, w) ->
  Request_run room client_send self s
  = (inr (Response_to_pretty_xml (Response_of_httpx response)),
     mkSys (add_traffic [(self, Response_of_httpx response)] (sys_state s)) w
       (sys_trace s ++ run_events (self, response))).
Proof.
  unfold reply_of. intros H. unfold Request_run, bind, send_request.
  destruct (call_of room self) as [e|call]; [discriminate|].
  destruct (client_send call (sys_world s)) as [[e|resp] w']; [discriminate|].
  injection H as <- <-.
  unfold emit, modify_state, ret. simpl. now rewrite <- app_assoc.
Qed.

(** One action that fails: the decoding of its body or its send raises. *)
Lemma run_raise self (s : Sys World) e w ev :
  failure_of room client_send self (sys_world s) = Some (e, w, ev) ->
  Request_run room client_send self s
  = (inl e, mkSys (sys_state s) w (sys_trace s ++ [ev])).
Proof.
  unfold failure_of. intros H. unfold Request_run, bind, send_request.
  destruct (call_of room self) as [e'|call].
  - injection H as <- <- <-. reflexivity.
  - destruct (client_send call (sys_world s)) as [[e'|resp] w']; [|discriminate].
    injection H as <- <- <-. reflexivity.
Qed.

(** An action either is answered or fails. *)
Lemma reply_or_failure a (w : World) :
  (exists response w', reply_of room client_send a w = Some (response, w'))
  \/ (exists e w' ev, failure_of room client_send a w = Some (e, w', ev)).
Proof.
  unfold reply_of, failure_of. destruct (call_of room a) as [e|call].
  - right. eauto.
  - destruct (client_send call w) as [[e|resp] w']; [right|left]; eauto.
Qed.

(** The event a failing action leaves: the decoding that raised, with the
    world untouched, or the send that raised. *)
Lemma failure_event a (w : World) e w' ev :
  failure_of room client_send a w = Some (e, w', ev) ->
  (ev = DecodeRaised a e /\ w' = w /\ call_of room a = inl e)
  \/ (exists call,
        ev = Sent a (inl e) /\ call_of room a = inr call
        /\ client_send call w = (inl e, w')).
Proof.
  unfold failure_of. destruct (call_of room a) as [e'|call].
  - intros [= <- <- <-]. left. auto.
  - destruct (client_send call w) as [[e'|resp] w''] eqn:E; [|discriminate].
    intros [= <- <- <-]. right. exists call. auto.
Qed.

(** What the observers read in the event of a failing action. *)
Lemma failure_observed a (w : World) e w' ev :
  failure_of room client_send a w = Some (e, w', ev) ->
  sent_pairs [ev] = [] /\ iteration_records [ev] = [] /\ prompts [ev] = []
  /\ running_records [ev] = [] /\ success_records [ev] = []
  /\ raised [ev] = true /\ first_raised [ev] = Some e
  /\ (exists rest, [a] = attempted [ev] ++ rest).
Proof.
  intros [(-> & _ & _)|(call & -> & _ & _)]%failure_event; simpl.
  - repeat split. now exists [a].
  - repeat split. now exists [].
Qed.

(** A queue whose actions are all answered. *)
Lemma actions_ok l : forall (s : Sys World) rs w,
  sends_ok room client_send l (sys_world s) = Some (rs, w) ->
  for_each l run_action s
  = (inr tt,
     mkSys (add_traffic (combine l (map Response_of_httpx rs)) (sys_state s)) w
       (sys_trace s ++ flat_map run_events (combine l rs))).
Proof.
  induction l as [|a l IH]; intros s rs w; simpl.
  - intros [= <- <-]. simpl. rewrite add_traffic_nil, app_nil_r. now destruct s.
  - destruct (reply_of room client_send a (sys_world s)) as [[response w1]|] eqn:Ea;
      [|discriminate].
    destruct (sends_ok room client_send l w1) as [[rs' w2]|] eqn:El; [|discriminate].
    intros [= <- <-].
    unfold bind at 1. unfold bind at 1. rewrite (run_ok _ _ _ _ Ea).
    unfold ret at 1.
    rewrite (IH _ rs' w2) by exact El. simpl.
    rewrite add_traffic_add, <- app_assoc. reflexivity.
Qed.

(** A queue in which [a] is the first action to fail. *)
Lemma actions_raise pre a post : forall (s : Sys World) rs w1 e w2 ev,
  sends_ok room client_send pre (sys_world s) = Some (rs, w1) ->
  failure_of room client_send a w1 = Some (e, w2, ev) ->
  for_each (pre ++ a :: post) run_action s
  = (inl e,
     mkSys (add_traffic (combine pre (map Response_of_httpx rs)) (sys_state s)) w2
       (sys_trace s ++ flat_map run_events (combine pre rs) ++ [ev])).
Proof.
  induction pre as [|b pre IH]; intros s rs w1 e w2 ev; simpl.
  - intros [= <- <-] Ha. unfold bind at 1. unfold bind at 1.
    rewrite (run_raise _ _ _ _ _ Ha). now rewrite add_traffic_nil.
  - destruct (reply_of room client_send b (sys_world s)) as [[response w]|] eqn:Eb;
      [|discriminate].
    destruct (sends_ok room client_send pre w) as [[rs' w']|] eqn:El; [|discriminate].
    intros [= <- <-] Ha.
    unfold bind at 1. unfold bind at 1. rewrite (run_ok _ _ _ _ Eb).
    unfold ret at 1.
    rewrite (IH _ rs' w' e w2 ev) by assumption. simpl.
    rewrite add_traffic_add, <- app_assoc. reflexivity.
Qed.

(** Either every action of a queue is answered, or one of them is the first
    to fail. *)
Lemma sends_cases l : forall w,
  (exists rs w', sends_ok room client_send l w = Some (rs, w'))
  \/ (exists pre a post rs w1 e w2 ev,
        l = pre ++ a :: post
        /\ sends_ok room client_send pre w = Some (rs, w1)
        /\ failure_of room client_send a w1 = Some (e, w2, ev)).
Proof.
  induction l as [|a l IH]; intros w.
  - left. exists [], w. reflexivity.
  - destruct (reply_or_failure a w) as [(response & w1 & Ea)|(e & w1 & ev & Ea)].
    + destruct (IH w1)
        as [(rs & w' & H)|(pre & b & post & rs & w2 & e & w3 & ev & -> & H & Hb)].
      * left. exists (response :: rs), w'. simpl. now rewrite Ea, H.
      * right. exists (a :: pre), b, post, (response :: rs), w2, e, w3, ev.
        simpl. rewrite Ea, H. auto.
    + right. exists [], a, l, [], w, e, w1, ev. auto.
Qed.

Lemma sends_ok_length l : forall w rs w',
  sends_ok room client_send l w = Some (rs, w') -> List.length rs = List.length l.
Proof.
  induction l as [|a l IH]; intros w rs w'; simpl.
  - now intros [= <- <-].
  - destruct (reply_of _ _ _ _) as [[response w1]|]; [|discriminate].
    destruct (sends_ok room client_send l w1) as [[rs' w2]|] eqn:El; [|discriminate].
    intros [= <- <-]. simpl. f_equal. eauto.
Qed.

(** [step] on a queue whose actions are all answered. *)
Lemma step_ok (s : Sys World) rs w :
  sends_ok room client_send (State_next_actions (sys_state s)) (sys_world s) = Some (rs, w) ->
  State_step room client_send s
  = (inr tt,
     mkSys (set_next_actions []
              (add_traffic
                 (combine (State_next_actions (sys_state s)) (map Response_of_httpx rs))
                 (sys_state s)))
       w
       (sys_trace s
        ++ LogRunning (List.length (State_next_actions (sys_state s)))
           :: flat_map run_events (combine (State_next_actions (sys_state s)) rs))).
Proof.
  intros H. unfold State_step, bind at 1, get_state. unfold bind at 1, emit.
  unfold bind at 1. rewrite (actions_ok _ _ rs w) by exact H.
  unfold modify_state. simpl. now rewrite <- app_assoc.
Qed.

(** [step] on a queue in which [a] is the first action to fail. *)
Lemma step_raise (s : Sys World) pre a post rs w1 e w2 ev :
  State_next_actions (sys_state s) = pre ++ a :: post ->
  sends_ok room client_send pre (sys_world s) = Some (rs, w1) ->
  failure_of room client_send a w1 = Some (e, w2, ev) ->
  State_step room client_send s
  = (inl e,
     mkSys (add_traffic (combine pre (map Response_of_httpx rs)) (sys_state s)) w2
       (sys_trace s
        ++ LogRunning (List.length (pre ++ a :: post))
           :: flat_map run_events (combine pre rs) ++ [ev])).
Proof.
  intros Hq Hpre Ha. unfold State_step, bind at 1, get_state. unfold bind at 1, emit.
  unfold bind at 1. simpl sys_state. rewrite Hq.
  rewrite (actions_raise pre a post _ rs w1 e w2 ev) by assumption.
  simpl. now rewrite <- app_assoc.
Qed.

(** C10 - When the send of the j-th queued action raises, the exception
    leaves [step] with the pairs of the actions before it appended to the
    traffic and none for it or the later ones, the later actions never handed
    to the transport, and the queue not cleared. The actions before it were
    answered, and its own call was built: the decoding of these bodies did
    not raise. *)
Theorem step_raise_leaves_queue (s : Sys World) pre a post rs w1 call e w2
    (Hqueue : State_next_actions (sys_state s) = pre ++ a :: post)
    (Hbefore : sends_ok room client_send pre (sys_world s) = Some (rs, w1))
    (Hcall : call_of room a = inr call)
    (Hraise : client_send call w1 = (inl e, w2)) :
  let out := State_step room client_send s in
  fst out = inl e
  /\ State_traffic (sys_state (snd out))
     = State_traffic (sys_state s) ++ combine pre (map Response_of_httpx rs)
  /\ List.length (State_traffic (sys_state (snd out)))
     = (List.length (State_traffic (sys_state s)) + List.length pre)%nat
  /\ attempted (new_trace s (snd out)) = pre ++ [a]
  /\ sent_pairs (new_trace s (snd out)) = combine pre (map Response_of_httpx rs)
  /\ State_next_actions (sys_state (snd out)) = pre ++ a :: post
  /\ sys_world (snd out) = w2.
Proof.
  cbv zeta.
  assert (Hfail : failure_of room client_send a w1 = Some (e, w2, Sent a (inl e))).
  { unfold failure_of. now rewrite Hcall, Hraise. }
  rewrite (step_raise s pre a post rs w1 e w2 _ Hqueue Hbefore Hfail).
  pose proof (sends_ok_length _ _ _ _ Hbefore) as Hlen.
  simpl. erewrite new_trace_app by reflexivity. simpl.
  rewrite attempted_app, sent_pairs_app, run_events_attempted, run_events_sent_pairs.
  simpl. rewrite app_nil_r, combine_map_snd.
  repeat split; auto.
  - rewrite length_app, length_map, length_combine. lia.
  - f_equal. clear -Hlen. revert rs Hlen.
    induction pre as [|x pre IH]; intros [|r rs] Hlen; simpl in *;
      try discriminate; [reflexivity|]. f_equal. apply IH. lia.
Qed.

(** ** Parsing a completion *)

Lemma slice_to_nonneg {A} (l : list A) m :
  0 <= m ->
  Py.slice_to l m = firstn (Z.to_nat m) l
  /\ Z.of_nat (List.length (Py.slice_to l m)) = Z.min (Z.of_nat (List.length l)) m.
Proof.
  intros Hm. unfold Py.slice_to.
  destruct (0 <=? m) eqn:E; [|apply Z.leb_gt in E; lia].
  split; [reflexivity|]. rewrite length_firstn. lia.
Qed.

(** C3 - For a cap [m] that is not negative: of the [k] actions parsed from
    a completion, the queue of the round holds the first [m], or all of them
    when there are fewer, in parse order, that is min(k, m) actions; the
    others are dropped and nothing is raised. *)
Theorem parse_truncates max_actions completion (s : Sys World)
    (Hcap : 0 <= max_actions) :
  let parsed := Codec.try_parse_many completion in
  let out := parse max_actions completion s in
  fst out = inr tt
  /\ State_next_actions (sys_state (snd out)) = firstn (Z.to_nat max_actions) parsed
  /\ Z.of_nat (List.length (State_next_actions (sys_state (snd out))))
     = Z.min (Z.of_nat (List.length parsed)) max_actions
  /\ (exists dropped, parsed = State_next_actions (sys_state (snd out)) ++ dropped)
  /\ State_traffic (sys_state (snd out)) = State_traffic (sys_state s)
  /\ sys_trace (snd out) = sys_trace s.
Proof.
  cbv zeta. rewrite parse_spec. simpl.
  destruct (slice_to_nonneg (Codec.try_parse_many completion) max_actions Hcap)
    as [Hs Hl].
  rewrite Hl, Hs. repeat split.
  exists (skipn (Z.to_nat max_actions) (Codec.try_parse_many completion)).
  symmetry. apply firstn_skipn.
Qed.

(** ** A round and the loop *)

Lemma round_unfold iterations max_actions i (s : Sys World) :
  round room client_send generate iterations max_actions i s
  = let s1 := mkSys (sys_state s) (sys_world s)
                (sys_trace s ++ [LogIteration (i + 1) iterations]) in
    let prompt := State_get_prompt (sys_state s) in
    match generate prompt (sys_world s) with
    | (inl e, w) =>
        (inl e, mkSys (sys_state s) w (sys_trace s1 ++ [Generated prompt (inl e)]))
    | (inr completion, w) =>
        State_step room client_send
          (mkSys (set_next_actions
                    (Py.slice_to (Codec.try_parse_many completion) max_actions)
                    (sys_state s))
             w (sys_trace s1 ++ [Generated prompt (inr completion)]))
    end.
Proof.
  unfold round, bind at 1, emit. unfold bind at 1, get_state.
  unfold bind at 1, chat_run. simpl.
  destruct (generate _ _) as [[e|completion] w]; [reflexivity|].
  unfold bind. rewrite parse_spec. reflexivity.
Qed.

(** C7 - Parsing a completion never raises, whatever the text: the queue
    becomes the truncated list of parsed actions. When that list is empty
    the round completes with no action executed and the traffic unchanged,
    and the loop goes on with the next iteration. *)
Theorem empty_parse_round iterations max_actions i completion (s : Sys World) w
    (Hgen : generate (State_get_prompt (sys_state s)) (sys_world s)
            = (inr completion, w))
    (Hempty : Py.slice_to (Codec.try_parse_many completion) max_actions = []) :
  let after :=
    mkSys (set_next_actions [] (sys_state s)) w
      (sys_trace s
       ++ [ LogIteration (i + 1) iterations;
            Generated (State_get_prompt (sys_state s)) (inr completion);
            LogRunning 0 ]) in
  (forall text (s0 : Sys World),
      fst (parse max_actions text s0) = inr tt
      /\ State_next_actions (sys_state (snd (parse max_actions text s0)))
         = Py.slice_to (Codec.try_parse_many text) max_actions)
  /\ round room client_send generate iterations max_actions i s = (inr tt, after)
  /\ State_traffic (sys_state after) = State_traffic (sys_state s)
  /\ attempted (new_trace s after) = []
  /\ (forall rest,
        for_each (i :: rest) (round room client_send generate iterations max_actions) s
        = for_each rest (round room client_send generate iterations max_actions) after).
Proof.
  cbv zeta.
  assert (Hround :
    round room client_send generate iterations max_actions i s
    = (inr tt,
       mkSys (set_next_actions [] (sys_state s)) w
         (sys_trace s
          ++ [ LogIteration (i + 1) iterations;
               Generated (State_get_prompt (sys_state s)) (inr completion);
               LogRunning 0 ]))).
  { rewrite round_unfold. cbv zeta. rewrite Hgen, Hempty.
    rewrite (step_ok _ [] w) by reflexivity. simpl.
    rewrite add_traffic_nil, <- !app_assoc. reflexivity. }
  split; [|split; [|split; [|split]]].
  - intros text s0. rewrite parse_spec. split; reflexivity.
  - exact Hround.
  - reflexivity.
  - erewrite new_trace_app by reflexivity. reflexivity.
  - intros rest. simpl. unfold bind at 1. now rewrite Hround.
Qed.

(** What one round leaves behind, whatever its outcome. *)
Lemma round_spec iterations max_actions i (s : Sys World) res s' :
  round room client_send generate iterations max_actions i s = (res, s') ->
  exists new,
    sys_trace s' = sys_trace s ++ LogIteration (i + 1) iterations :: new
    /\ State_traffic (sys_state s') = State_traffic (sys_state s) ++ sent_pairs new
    /\ iteration_records new = []
    /\ (raised new = false ->
        res = inr tt
        /\ List.length (prompts new) = 1%nat
        /\ List.length (running_records new) = 1%nat)
    /\ (res = inr tt -> raised new = false).
Proof.
  rewrite round_unfold. cbv zeta.
  destruct (generate _ _) as [[e|completion] w].
  - intros [= <- <-].
    exists [Generated (State_get_prompt (sys_state s)) (inl e)]. simpl.
    rewrite <- app_assoc, app_nil_r. repeat split; discriminate.
  - remember (Py.slice_to (Codec.try_parse_many completion) max_actions) as q eqn:Eq.
    clear Eq.
    destruct (sends_cases q w)
      as [(rs & w' & Hok)|(pre & a & post & rs & w1 & e & w2 & ev & Hq & Hpre & Ha)].
    + rewrite (step_ok _ rs w') by exact Hok. simpl. intros [= <- <-].
      exists (Generated (State_get_prompt (sys_state s)) (inr completion)
              :: LogRunning (List.length q) :: flat_map run_events (combine q rs)).
      destruct (run_events_quiet (combine q rs)) as (Hi & Hp & Hr & Hx).
      simpl. rewrite <- !app_assoc, run_events_sent_pairs, combine_map_snd, Hi, Hp, Hr, Hx.
      repeat split; reflexivity.
    + rewrite (step_raise _ pre a post rs w1 e w2 ev) by assumption.
      simpl. intros [= <- <-].
      exists (Generated (State_get_prompt (sys_state s)) (inr completion)
              :: LogRunning (List.length (pre ++ a :: post))
              :: flat_map run_events (combine pre rs) ++ [ev]).
      destruct (run_events_quiet (combine pre rs)) as (Hi & Hp & Hr & Hx).
      destruct (failure_observed _ _ _ _ _ Ha) as (Fs & Fi & _ & _ & _ & Fr & _).
      simpl. rewrite <- !app_assoc.
      rewrite sent_pairs_app, iteration_records_app, raised_app.
      rewrite run_events_sent_pairs, combine_map_snd, Hi, Hx, Fs, Fi, Fr. simpl.
      rewrite app_nil_r. repeat split; discriminate.
Qed.

(** What a run of rounds leaves behind, whatever its outcome. *)
Lemma rounds_spec iterations max_actions l : forall (s : Sys World) res s',
  for_each l (round room client_send generate iterations max_actions) s = (res, s') ->
  exists new,
    sys_trace s' = sys_trace s ++ new
    /\ State_traffic (sys_state s') = State_traffic (sys_state s) ++ sent_pairs new
    /\ (new = [] \/ exists i n t, new = LogIteration i n :: t)
    /\ (raised new = false ->
        res = inr tt
        /\ iteration_records new = map (fun i => (i + 1, iterations)) l
        /\ List.length (prompts new) = List.length l
        /\ List.length (running_records new) = List.length l)
    /\ (res = inr tt -> raised new = false)
    /\ (round_count new <= List.length l)%nat.
Proof.
  induction l as [|i l IH]; intros s res s'.
  - intros [= <- <-]. exists []. unfold round_count. simpl. rewrite !app_nil_r.
    repeat split; auto.
  - simpl. unfold bind at 1.
    destruct (round room client_send generate iterations max_actions i s) as [[e|[]] s1] eqn:Er;
      destruct (round_spec _ _ _ _ _ _ Er) as (new1 & Ht & Hf & Hi & Hq & Hr).
    + intros [= <- <-]. exists (LogIteration (i + 1) iterations :: new1).
      assert (Hx : raised new1 = true).
      { destruct (raised new1); [reflexivity|]. destruct (Hq eq_refl). discriminate. }
      unfold round_count. simpl. rewrite Hi, Hx. simpl.
      repeat split; eauto; try discriminate. lia.
    + intros Hrest. destruct (IH _ _ _ Hrest) as (new2 & Ht2 & Hf2 & _ & Hq2 & Hr2 & Hc2).
      exists ((LogIteration (i + 1) iterations :: new1) ++ new2).
      pose proof (Hr eq_refl) as Hx. destruct (Hq Hx) as (_ & Hp1 & Hk1).
      rewrite Ht2, Ht, Hf2, Hf, <- !app_assoc.
      rewrite round_count_app. unfold round_count in *. simpl.
      rewrite sent_pairs_app, raised_app, iteration_records_app, prompts_app,
        running_records_app, !length_app, Hi, Hx, Hp1, Hk1. simpl.
      repeat split; eauto.
      * apply Hq2. assumption.
      * f_equal. apply Hq2. assumption.
      * f_equal. apply Hq2. assumption.
      * f_equal. apply Hq2. assumption.
      * lia.
Qed.

Lemma range_length n : List.length (Py.range n) = Z.to_nat n.
Proof. unfold Py.range. now rewrite length_map, length_seq. Qed.


(** C5 - For an iteration count [n] that is not negative, a run in which no
    call to the generation backend or to the transport raises, and in which
    the decoding of no body raises a [ValueError] or a [RecursionError],
    ends normally after exactly [n] rounds, numbered 1 to [n], each with one
    prompt handed to the backend and one execution step, whatever number of
    actions each round yields. *)
Theorem agent_loop_rounds iterations max_actions (s : Sys World)
    (Hn : 0 <= iterations)
    (Hquiet :
      raised (new_trace s (snd (agent_loop room client_send generate
                                  iterations max_actions s))) = false) :
  let out := agent_loop room client_send generate iterations max_actions s in
  let new := new_trace s (snd out) in
  fst out = inr tt
  /\ iteration_records new = map (fun i => (i + 1, iterations)) (Py.range iterations)
  /\ Z.of_nat (round_count new) = iterations
  /\ Z.of_nat (List.length (prompts new)) = iterations
  /\ Z.of_nat (List.length (running_records new)) = iterations.
Proof.
  cbv zeta. revert Hquiet. unfold agent_loop.
  destruct (for_each _ _ s) as [res s'] eqn:E.
  destruct (rounds_spec _ _ _ _ _ _ E) as (new & Ht & _ & _ & Hq & _ & _).
  simpl. rewrite (new_trace_app _ _ _ Ht). intros Hquiet.
  destruct (Hq Hquiet) as (Hres & Hi & Hp & Hr).
  unfold round_count. rewrite Hi, Hp, Hr, length_map, range_length.
  repeat split; try assumption; lia.
Qed.

End AgentFacts.

(** ** The statements on the scripted world *)

(** With a cap of two, the first two of the three proposed actions are
    queued. *)
Lemma parse_truncates_witness :
  let out := parse 2 three_actions (empty_sys 2 no_world) in
  Codec.try_parse_many three_actions = [get_a; get_b; post_c]
  /\ State_next_actions (sys_state (snd out)) = [get_a; get_b]
  /\ Z.of_nat (List.length (State_next_actions (sys_state (snd out)))) = Z.min 3 2.
Proof.
  cbv zeta.
  destruct (parse_truncates 2 three_actions (empty_sys 2 no_world))
    as (_ & H2 & H3 & _); [lia|].
  split; [vm_compute; reflexivity|]. split.
  - rewrite H2. vm_compute. reflexivity.
  - rewrite H3. vm_compute. reflexivity.
Defined.

(** With a cap of minus one the slice counts from the end: two of the three
    proposed actions are queued, not min(3, -1). *)
Lemma parse_negative_cap :
  let out := parse (-1) three_actions (empty_sys (-1) no_world) in
  List.length (Codec.try_parse_many three_actions) = 3%nat
  /\ fst out = inr tt
  /\ State_next_actions (sys_state (snd out)) = [get_a; get_b]
  /\ Z.of_nat (List.length (State_next_actions (sys_state (snd out))))
     <> Z.min (Z.of_nat (List.length (Codec.try_parse_many three_actions))) (-1).
Proof.
  cbv zeta. vm_compute. repeat split. discriminate.
Qed.

(** Two rounds asked for, the first send raises: the run stops in round one
    with the exception. *)
Lemma agent_loop_aborted_by_raise :
  let out := agent_loop script_room script_send script_generate 2 2
               (empty_sys 2 (three_twice [inl (Raised "ConnectError")])) in
  fst out = inl (Raised "ConnectError")
  /\ round_count (sys_trace (snd out)) = 1%nat
  /\ Z.of_nat (round_count (sys_trace (snd out))) <> 2
  /\ State_traffic (sys_state (snd out)) = [].
Proof.
  cbv zeta. vm_compute. repeat split. discriminate.
Qed.

(** Two rounds, the first with no action and the second with two, no call
    raising. *)
Lemma agent_loop_rounds_witness :
  let s := empty_sys 2 (idle_then_three [inr ok_200; inr ok_200]) in
  let out := agent_loop script_room script_send script_generate 2 2 s in
  fst out = inr tt
  /\ Z.of_nat (round_count (new_trace s (snd out))) = 2
  /\ executed_per_round (new_trace s (snd out)) = [0%nat; 2%nat].
Proof.
  cbv zeta.
  destruct (agent_loop_rounds script_room script_send script_generate 2 2
              (empty_sys 2 (idle_then_three [inr ok_200; inr ok_200])))
    as (H1 & _ & H3 & _); [lia|vm_compute; reflexivity|].
  split; [exact H1|]. split; [exact H3|]. vm_compute. reflexivity.
Defined.

(** A completion without any action: the round completes and the loop goes
    on with the rest. *)
Lemma empty_parse_round_witness :
  let s := empty_sys 2 (idle_then_three [inr ok_200; inr ok_200]) in
  Codec.try_parse_many "Nothing to try yet." = []
  /\ fst (round script_room script_send script_generate 2 2 0 s) = inr tt
  /\ State_traffic (sys_state (snd (round script_room script_send script_generate 2 2 0 s))) = []
  /\ fst (for_each [0; 1] (round script_room script_send script_generate 2 2) s) = inr tt.
Proof.
  cbv zeta.
  destruct (empty_parse_round script_room script_send script_generate 2 2 0 "Nothing to try yet."
              (empty_sys 2 (idle_then_three [inr ok_200; inr ok_200]))
              (mkScript [inr three_actions] [inr ok_200; inr ok_200]))
    as (_ & Hround & _ & _ & Hnext); [reflexivity|vm_compute; reflexivity|].
  split; [vm_compute; reflexivity|]. rewrite Hround, Hnext.
  repeat split; vm_compute; reflexivity.
Defined.

(** Three actions queued, the second send raises. *)
Lemma step_raise_leaves_queue_witness :
  let s := queued_sys [inr ok_200; inl (Raised "ReadTimeout")] in
  let out := State_step script_room script_send s in
  fst out = inl (Raised "ReadTimeout")
  /\ State_traffic (sys_state (snd out))
     = [(get_a, Response_of_httpx ok_200); (get_a, Response_of_httpx ok_200)]
  /\ attempted (new_trace s (snd out)) = [get_a; get_b]
  /\ State_next_actions (sys_state (snd out)) = [get_a; get_b; post_c].
Proof.
  cbv zeta.
  destruct (step_raise_leaves_queue script_room script_send
              (queued_sys [inr ok_200; inl (Raised "ReadTimeout")])
              [get_a] get_b [post_c] [ok_200]
              (mkScript [] [inl (Raised "ReadTimeout")])
              (build_request get_b Json.JNull)
              (Raised "ReadTimeout") (mkScript [] []))
    as (H1 & H2 & _ & H4 & _ & H6 & _); [reflexivity..|].
  repeat split; assumption.
Defined.

(** One round with a cap of two and three proposed actions: the first two
    are executed, in that order. *)
Example one_round_two_of_three :
  let out := cli script_room script_send script_generate "Explore all endpoints in the app." 1 2
               (three_twice [inr ok_200; inr ok_200; inr ok_200]) in
  fst out = inr tt
  /\ map fst (State_traffic (sys_state (snd out))) = [get_a; get_b]
  /\ State_next_actions (sys_state (snd out)) = []
  /\ List.length (replies (sys_world (snd out))) = 1%nat.
Proof. vm_compute. repeat split. Qed.

(** * Further properties of the code *)

(** ** The field constraints *)

Lemma lstrip_fixed s : Py.starts_with_space s = false -> Py.lstrip s = s.
Proof. destruct s as [|c s]; simpl; [reflexivity|]. now intros ->. Qed.

Lemma rstrip_fixed s : Py.ends_with_space s = false -> Py.rstrip s = s.
Proof.
  induction s as [|c s IH]; [reflexivity|].
  destruct s as [|d s'].
  - simpl. now intros ->.
  - intros H. change (Py.ends_with_space (String d s') = false) in H.
    change (Py.rstrip (String c (String d s')))
      with (match Py.rstrip (String d s') with
            | EmptyString => if Py.is_space c then EmptyString else String c EmptyString
            | r => String c r
            end).
    now rewrite (IH H).
Qed.

Lemma strip_fixed s : trimmed s -> Py.strip s = s.
Proof.
  intros [Hl Hr]. unfold Py.strip. rewrite (lstrip_fixed s Hl). now apply rstrip_fixed.
Qed.

Lemma lstrip_all_space s : Py.all_space s = true -> Py.lstrip s = EmptyString.
Proof.
  induction s as [|c s IH]; simpl; [reflexivity|].
  destruct (Py.is_space c); simpl; [exact IH|discriminate].
Qed.

Lemma strip_all_space s : Py.all_space s = true -> Py.strip s = EmptyString.
Proof. intros H. unfold Py.strip. now rewrite lstrip_all_space. Qed.

Lemma upper_char_fixed c : Py.is_lower c = false -> Py.upper_char c = c.
Proof. unfold Py.upper_char. now intros ->. Qed.

Lemma upper_fixed s : Py.has_lower s = false -> Py.upper s = s.
Proof.
  induction s as [|c s IH]; simpl; [reflexivity|].
  intros [Hc Hs]%orb_false_iff. now rewrite upper_char_fixed, IH.
Qed.

(** X1 - The [str_strip] constraint removes white space at both ends and
    nothing else: the value is the stripped one between two runs of white
    space, the result neither starts nor ends with white space, and
    validating a validated value changes nothing. *)
Theorem str_strip_idempotent s :
  str_strip (str_strip s) = str_strip s
  /\ trimmed (str_strip s)
  /\ exists pre post,
       s = pre +:+ str_strip s +:+ post
       /\ Py.all_space pre = true /\ Py.all_space post = true.
Proof.
  unfold str_strip. split; [|split].
  - apply strip_fixed, strip_trimmed.
  - apply strip_trimmed.
  - apply strip_split.
Qed.

Lemma upper_char_ascii c :
  (nat_of_ascii c <? 128)%nat = true -> (nat_of_ascii (Py.upper_char c) <? 128)%nat = true.
Proof. destruct c as [[] [] [] [] [] [] [] []]; vm_compute; auto. Qed.

Lemma upper_ascii s : Py.is_ascii s = true -> Py.is_ascii (Py.upper s) = true.
Proof.
  induction s as [|c s IH]; simpl; [reflexivity|].
  intros [Hc Hs]%andb_true_iff. now rewrite upper_char_ascii, IH.
Qed.

(** X2 - On ASCII text the [str_upper] constraint keeps the length and stays
    within ASCII, leaves no lower-case letter, keeps a text without
    lower-case letters as it is, and validating a validated value changes
    nothing. *)
Theorem str_upper_idempotent s (Hascii : Py.is_ascii s = true) :
  str_upper (str_upper s) = str_upper s
  /\ Py.has_lower (str_upper s) = false
  /\ String.length (str_upper s) = String.length s
  /\ Py.is_ascii (str_upper s) = true
  /\ str_upper s = (if Py.has_lower s then str_upper s else s).
Proof.
  unfold str_upper. split; [|split; [|split; [|split]]].
  - apply upper_fixed, upper_no_lower.
  - apply upper_no_lower.
  - apply upper_length.
  - now apply upper_ascii.
  - destruct (Py.has_lower s) eqn:E; [reflexivity|]. now apply upper_fixed.
Qed.

Lemma str_upper_idempotent_witness :
  str_upper "get" = "GET" /\ str_upper (str_upper "get") = str_upper "get"
  /\ String.length (str_upper "get") = 3%nat.
Proof.
  destruct (str_upper_idempotent "get") as (H1 & _ & H3 & _); [reflexivity|].
  split; [reflexivity|]. split; [exact H1|exact H3].
Defined.

(** X3 - Constructing a model from the fields of a constructed one gives
    the same instance: the constraints of [Request], [Header], [Parameter]
    and [Response] are applied once and for all at construction. *)
Theorem models_revalidate method path headers url_params body name value status :
  let r := Request_init method path headers url_params body in
  let h := Header_init name value in
  let p := Parameter_init name value in
  let res := Response_init status headers body in
  Request_init (Request_method r) (Request_path r) (Some (Request_headers r))
    (Some (Request_url_params r)) (Some (Request_body r)) = r
  /\ Header_init (Header_name h) (Header_value h) = h
  /\ Parameter_init (Parameter_name p) (Parameter_value p) = p
  /\ Response_init (Response_status_code res) (Some (Response_headers res))
       (Some (Response_body res)) = res.
Proof.
  cbv zeta. unfold Request_init, Header_init, Parameter_init, Response_init. simpl.
  unfold str_upper, str_strip.
  rewrite (upper_fixed _ (upper_no_lower method)).
  rewrite (strip_fixed _ (strip_trimmed value)).
  destruct body as [b|].
  - rewrite (strip_fixed _ (strip_trimmed b)). auto.
  - change (Py.strip EmptyString) with EmptyString. auto.
Qed.

(** ** The executor *)

(** X4 - When the decoding of the body returns or fails with a decode
    error, the call is built, and: the raw content is left out of it exactly
    when the body parses to a JSON value that is true as a truth value; when
    it is passed it is the body itself; the JSON payload is the parsed value,
    or none when the body does not parse; the call never goes out with
    neither of the two. *)
Theorem build_request_content_iff room request
    (Hdecodes : forall e, Json.loads room (Request_body request) = Json.Raises e ->
                          e = Json.JSONDecodeError) :
  exists call,
    call_of room request = inr call
    /\ (hx_content call = None
        <-> exists v, Json.loads room (Request_body request) = Json.Returns v
                      /\ Json.truthy v = true)
    /\ (hx_content call = None \/ hx_content call = Some (Request_body request))
    /\ hx_json call
       = match Json.loads room (Request_body request) with
         | Json.Returns v => v
         | Json.Raises _ => Json.JNull
         end
    /\ (hx_content call = None -> hx_json call <> Json.JNull).
Proof.
  unfold call_of, decode_body.
  destruct (Json.loads room (Request_body request)) as [v|e] eqn:E.
  - eexists. split; [reflexivity|]. simpl.
    destruct (Json.truthy v) eqn:Et; simpl.
    + repeat split; auto.
      * intros _. now exists v.
      * intros _ ->. discriminate.
    + repeat split; auto; try discriminate.
      intros (v' & [= <-] & Ht). congruence.
  - rewrite (Hdecodes e eq_refl). eexists. split; [reflexivity|]. simpl.
    repeat split; auto; try discriminate.
    intros (v' & Hv & _). discriminate.
Qed.

(** A body that is a list of two numbers, and one that is no JSON. *)
Lemma build_request_content_iff_witness :
  (exists call,
     call_of script_room (Request_init "POST" "/api" None None (Some "[1, 2]")) = inr call
     /\ hx_content call = None
     /\ hx_json call = Json.JList [Json.JInt 1; Json.JInt 2])
  /\ (exists call,
        call_of script_room (Request_init "POST" "/login" None None (Some "user=admin"))
        = inr call
        /\ hx_content call = Some "user=admin"
        /\ hx_json call = Json.JNull).
Proof.
  split.
  - destruct (build_request_content_iff script_room
                (Request_init "POST" "/api" None None (Some "[1, 2]")))
      as (call & Hc & Hn & _ & Hj & _).
    + intros e H. vm_compute in H. discriminate.
    + exists call. split; [exact Hc|]. split.
      * apply Hn. exists (Json.JList [Json.JInt 1; Json.JInt 2]).
        split; vm_compute; reflexivity.
      * rewrite Hj. vm_compute. reflexivity.
  - destruct (build_request_content_iff script_room
                (Request_init "POST" "/login" None None (Some "user=admin")))
      as (call & Hc & Hn & [Ho|Ho] & Hj & _).
    + intros e H. vm_compute in H. now injection H as <-.
    + exfalso. apply Hn in Ho. destruct Ho as (v & Hv & _). vm_compute in Hv. discriminate.
    + exists call. split; [exact Hc|]. split; [exact Ho|]. rewrite Hj. vm_compute. reflexivity.
Defined.

(** X5 - A request constructed with a body of white space only is the
    request constructed without a body, and it goes out with the empty text
    as raw content and no JSON payload. *)
Theorem send_request_blank_body room method path headers url_params body
    (Hblank : Py.all_space body = true) :
  let blank := Request_init method path headers url_params (Some body) in
  let none := Request_init method path headers url_params None in
  blank = none
  /\ exists call,
       call_of room none = inr call
       /\ hx_content call = Some EmptyString
       /\ hx_json call = Json.JNull.
Proof.
  cbv zeta. unfold Request_init, str_strip. rewrite (strip_all_space body Hblank).
  split; [reflexivity|]. eexists. split; [reflexivity|]. split; reflexivity.
Qed.

Lemma send_request_blank_body_witness :
  Request_init "get" "/" None None (Some "   ") = Request_init "get" "/" None None None
  /\ exists call,
       call_of script_room (Request_init "get" "/" None None None) = inr call
       /\ hx_content call = Some EmptyString.
Proof.
  destruct (send_request_blank_body script_room "get" "/" None None "   ")
    as (H1 & call & H2 & H3 & _); [reflexivity|].
  split; [exact H1|]. exists call. split; [exact H2|exact H3].
Defined.

(** X6 - The [Response] made of the transport's reply keeps the status
    code, has one header per header item of the reply, with the same names
    in the same order, and holds the header values and the text stripped of
    the white space at their ends. *)
Theorem Response_of_httpx_normalized response :
  let r := Response_of_httpx response in
  Response_status_code r = hr_status_code response
  /\ map Header_name (Response_headers r) = map fst (hr_headers response)
  /\ map Header_value (Response_headers r)
     = map (fun kv => Py.strip (snd kv)) (hr_headers response)
  /\ Forall (fun h => trimmed (Header_value h)) (Response_headers r)
  /\ Response_body r = Py.strip (hr_text response)
  /\ trimmed (Response_body r).
Proof.
  cbv zeta. unfold Response_of_httpx, Response_init. simpl.
  repeat split.
  - now rewrite map_map.
  - now rewrite map_map.
  - apply Forall_forall. intros h (kv & <- & _)%in_map_iff. apply strip_trimmed.
  - apply strip_trimmed.
  - apply strip_trimmed.
Qed.

Lemma headers_dict_lookup (headers : list Header) (d : gmap string string) name v :
  foldl (fun d h => <[Header_name h := Header_value h]> d) d headers !! name = Some v ->
  d !! name = Some v \/ In (mkHeader name v) headers.
Proof.
  revert d. induction headers as [|h headers IH]; intros d; simpl; [auto|].
  intros [H|H]%IH; [|auto].
  destruct (decide (Header_name h = name)) as [<-|Hne].
  - rewrite lookup_insert_eq in H. injection H as <-. right. left. now destruct h.
  - rewrite lookup_insert_ne in H by exact Hne. auto.
Qed.

Lemma headers_dict_some (headers : list Header) (d : gmap string string) name :
  In name (map Header_name headers) ->
  is_Some (foldl (fun d h => <[Header_name h := Header_value h]> d) d headers !! name).
Proof.
  revert d. induction headers as [|h headers IH] using rev_ind; intros d; [intros []|].
  rewrite map_app, in_app_iff, foldl_app. simpl. intros [H|[<-|[]]].
  - destruct (decide (Header_name h = name)) as [<-|Hne].
    + rewrite lookup_insert_eq. eauto.
    + rewrite lookup_insert_ne by exact Hne. now apply IH.
  - rewrite lookup_insert_eq. eauto.
Qed.

(** X7 - The header mapping of the call holds a name exactly when a header
    of the request has it, and the value it gives a name is the value of one
    of the headers of that name: nothing is added to the headers. *)
Theorem headers_forwarded_iff request json_body name :
  (is_Some (hx_headers (build_request request json_body) !! name)
   <-> In name (map Header_name (Request_headers request)))
  /\ (forall v, hx_headers (build_request request json_body) !! name = Some v ->
                In (mkHeader name v) (Request_headers request)).
Proof.
  unfold build_request, headers_dict. simpl. split; [split|].
  - intros [v [H|H]%headers_dict_lookup]; [now rewrite lookup_empty in H|].
    apply in_map_iff. now exists (mkHeader name v).
  - apply headers_dict_some.
  - intros v [H|H]%headers_dict_lookup; [now rewrite lookup_empty in H|exact H].
Qed.


(** ** The prompt *)

Lemma append_assoc_str a b c : (a +:+ b) +:+ c = a +:+ (b +:+ c).
Proof.
  induction a as [|x a IH]; [reflexivity|]. rewrite !append_cons. now rewrite IH.
Qed.

Lemma join_snoc sep l : forall x y,
  Py.join sep ((x :: l) ++ [y]) = Py.join sep (x :: l) +:+ sep +:+ y.
Proof.
  induction l as [|z l IH]; intros x y; [reflexivity|].
  change (Py.join sep ((x :: z :: l) ++ [y]))
    with (x +:+ sep +:+ Py.join sep ((z :: l) ++ [y])).
  change (Py.join sep (x :: z :: l)) with (x +:+ sep +:+ Py.join sep (z :: l)).
  rewrite IH, !append_assoc_str. reflexivity.
Qed.

(** X8 - Every pair appended to the traffic adds its line at the end of
    the traffic section of the prompt, after a line feed when the section has
    lines already: the section lists the whole history, and the earlier
    lines stay as they were. *)
Theorem prompt_lists_all_traffic self p :
  traffic_summary (append_traffic p self)
  = match State_traffic self with
    | [] => traffic_line p
    | _ => traffic_summary self +:+ Codec.nl +:+ traffic_line p
    end
  /\ str_or (traffic_summary (append_traffic p self)) "No traffic yet"
     = traffic_summary (append_traffic p self)
  /\ active_goal (append_traffic p self) = active_goal self.
Proof.
  split; [|split].
  - unfold traffic_summary, append_traffic. simpl.
    destruct (State_traffic self) as [|q qs]; [reflexivity|].
    rewrite map_app. simpl map. apply join_snoc.
  - apply str_or_nonempty. unfold traffic_summary, append_traffic. simpl.
    rewrite map_app.
    destruct (map traffic_line (State_traffic self)) as [|x l] eqn:E.
    + simpl. apply traffic_line_nonempty.
    + destruct (State_traffic self) as [|q qs]; [discriminate|].
      injection E as <- <-. apply join_nonempty, traffic_line_nonempty.
  - reflexivity.
Qed.

(** ** Reading a trace, continued *)

Lemma success_records_app a b :
  success_records (a ++ b) = success_records a ++ success_records b.
Proof.
  induction a as [|ev a IH]; [reflexivity|].
  destruct ev; simpl; rewrite IH; reflexivity.
Qed.

Lemma first_raised_app a b :
  first_raised (a ++ b)
  = match first_raised a with Some e => Some e | None => first_raised b end.
Proof.
  induction a as [|ev a IH]; [reflexivity|].
  destruct ev as [| | |p [e|c]|r [e|resp]|]; simpl; auto.
Qed.

Lemma run_events_success (ps : list (Request * HttpxResponse)) :
  success_records (flat_map run_events ps)
  = map (fun p => success_of (fst p, Response_of_httpx (snd p))) ps.
Proof. induction ps as [|[r resp] ps IH]; simpl; [reflexivity|]. now rewrite IH. Qed.

Lemma run_events_first_raised (ps : list (Request * HttpxResponse)) :
  first_raised (flat_map run_events ps) = None.
Proof. induction ps as [|[r resp] ps IH]; simpl; auto. Qed.

Lemma combine_fst_same_length {A B} (l : list A) : forall rs : list B,
  List.length rs = List.length l -> map fst (combine l rs) = l.
Proof.
  induction l as [|x l IH]; intros [|r rs] H; simpl in *; try discriminate; [reflexivity|].
  f_equal. apply IH. lia.
Qed.

Lemma sent_le_attempted t :
  (List.length (sent_pairs t) <= List.length (attempted t))%nat.
Proof.
  induction t as [|ev t IH]; [reflexivity|].
  destruct ev as [| | | |r [e|resp]|]; simpl; lia.
Qed.

Lemma range_nonpositive n : n <= 0 -> Py.range n = [].
Proof. intros H. unfold Py.range. now replace (Z.to_nat n) with O by lia. Qed.

Lemma range_positive n : 0 < n -> exists rest, Py.range n = 0 :: rest.
Proof.
  intros H. unfold Py.range. destruct (Z.to_nat n) as [|k] eqn:E; [lia|].
  simpl. eauto.
Qed.

Section AgentMore.

Context {World : Type}.
Variable room : nat.
Variable client_send : HttpxRequest -> World -> (Exception + HttpxResponse) * World.
Variable generate : string -> World -> (Exception + string) * World.

(** X9 - The url parameters of a request never reach the transport: the call
    is built from the method, the path as it is, the headers and the body,
    so two requests that differ in their url parameters only are sent the
    same way, with the same outcome. *)
Theorem send_request_ignores_url_params method path headers url_params body
    (s : Sys World) :
  let r := mkRequest method path headers url_params body in
  let r0 := mkRequest method path headers [] body in
  (forall json_body, build_request r json_body = build_request r0 json_body)
  /\ (forall json_body, hx_url (build_request r json_body) = path)
  /\ call_of room r = call_of room r0
  /\ fst (send_request room client_send r s) = fst (send_request room client_send r0 s)
  /\ sys_world (snd (send_request room client_send r s))
     = sys_world (snd (send_request room client_send r0 s)).
Proof.
  cbv zeta. split; [reflexivity|]. split; [reflexivity|]. split; [reflexivity|].
  unfold send_request.
  change (call_of room (mkRequest method path headers url_params body))
    with (call_of room (mkRequest method path headers [] body)).
  destruct (call_of room _) as [e|call]; [split; reflexivity|].
  destruct (client_send _ _) as [[e|response] w]; split; reflexivity.
Qed.

(** X10 - [Request.run] decodes the body first. When the decoder raises
    anything but a decode error, the exception leaves [run] with nothing
    handed to the transport, the state and the world as they were and
    nothing logged. Otherwise the call is handed to the transport once: when
    the send returns, one pair of the request and the response made of the
    reply is appended to the traffic, one success record is logged with the
    method, the path and the status code, and [run] returns; when the send
    raises, the exception leaves [run] with the state as it was and nothing
    logged. The queue is never touched. *)
Theorem Request_run_outcomes self (s : Sys World) :
  let out := Request_run room client_send self s in
  State_next_actions (sys_state (snd out)) = State_next_actions (sys_state s)
  /\ match call_of room self with
     | inl e =>
         fst out = inl e
         /\ sys_state (snd out) = sys_state s
         /\ sys_world (snd out) = sys_world s
         /\ new_trace s (snd out) = [DecodeRaised self e]
     | inr call =>
         sys_world (snd out) = snd (client_send call (sys_world s))
         /\ match fst (client_send call (sys_world s)) with
            | inr response =>
                (exists text, fst out = inr text)
                /\ State_traffic (sys_state (snd out))
                   = State_traffic (sys_state s) ++ [(self, Response_of_httpx response)]
                /\ new_trace s (snd out)
                   = [ Sent self (inr response);
                       LogSuccess (Request_method self) (Request_path self)
                         (hr_status_code response) ]
            | inl e =>
                fst out = inl e
                /\ sys_state (snd out) = sys_state s
                /\ new_trace s (snd out) = [Sent self (inl e)]
            end
     end.
Proof.
  cbv zeta.
  destruct (call_of room self) as [e|call] eqn:Ec.
  - rewrite (run_raise room client_send self s e (sys_world s) (DecodeRaised self e))
      by (unfold failure_of; now rewrite Ec).
    simpl. erewrite new_trace_app by reflexivity. auto.
  - destruct (client_send call (sys_world s)) as [[e|response] w] eqn:E.
    + rewrite (run_raise room client_send self s e w (Sent self (inl e)))
        by (unfold failure_of; now rewrite Ec, E).
      simpl. erewrite new_trace_app by reflexivity. auto.
    + rewrite (run_ok room client_send self s response w)
        by (unfold reply_of; now rewrite Ec, E).
      simpl. erewrite new_trace_app by reflexivity. repeat split; eauto.
Qed.

(** X11 - When every body of the queue decodes and every send returns,
    [step] ends normally with the queue cleared, the queued actions handed
    to the transport in queue order, one pair per action appended to the
    traffic in that order, and the number of queued actions announced
    once. *)
Theorem step_runs_queue_in_order (s : Sys World) rs w
    (Hok : sends_ok room client_send (State_next_actions (sys_state s)) (sys_world s)
           = Some (rs, w)) :
  let queue := State_next_actions (sys_state s) in
  let out := State_step room client_send s in
  fst out = inr tt
  /\ State_next_actions (sys_state (snd out)) = []
  /\ State_traffic (sys_state (snd out))
     = State_traffic (sys_state s) ++ combine queue (map Response_of_httpx rs)
  /\ attempted (new_trace s (snd out)) = queue
  /\ map fst (sent_pairs (new_trace s (snd out))) = queue
  /\ running_records (new_trace s (snd out)) = [List.length queue]
  /\ List.length (State_traffic (sys_state (snd out)))
     = (List.length (State_traffic (sys_state s)) + List.length queue)%nat
  /\ sys_world (snd out) = w.
Proof.
  cbv zeta. rewrite (step_ok room client_send s rs w Hok).
  pose proof (sends_ok_length room client_send _ _ _ _ Hok) as Hlen.
  destruct (run_events_quiet (combine (State_next_actions (sys_state s)) rs))
    as (_ & _ & Hr & _).
  simpl. erewrite new_trace_app by reflexivity. simpl.
  rewrite run_events_attempted, run_events_sent_pairs, Hr, map_map. simpl.
  rewrite (combine_fst_same_length _ rs Hlen).
  repeat split; auto.
  - exact (combine_fst_same_length _ rs Hlen).
  - rewrite length_app, length_combine, length_map. lia.
Qed.

(** X12 - Whatever the outcome of [step]: one success record is logged for
    each pair appended to the traffic and for nothing else, the requests
    handed to the transport are the first ones of the queue, in order, the
    queue length is announced once, the queue is cleared when [step] ends
    normally and left as it was when an action failed, and [step] ends with
    an exception exactly when the decoding of a body or a send raised, with
    the exception of the first that did. *)
Theorem step_logs_each_success (s : Sys World) :
  let out := State_step room client_send s in
  let new := new_trace s (snd out) in
  success_records new = map success_of (sent_pairs new)
  /\ State_traffic (sys_state (snd out)) = State_traffic (sys_state s) ++ sent_pairs new
  /\ (exists rest, State_next_actions (sys_state s) = attempted new ++ rest)
  /\ running_records new = [List.length (State_next_actions (sys_state s))]
  /\ State_next_actions (sys_state (snd out))
     = match fst out with
       | inr _ => []
       | inl _ => State_next_actions (sys_state s)
       end
  /\ first_raised new = match fst out with inr _ => None | inl e => Some e end.
Proof.
  cbv zeta.
  destruct (sends_cases room client_send (State_next_actions (sys_state s)) (sys_world s))
    as [(rs & w & Hok)|(pre & a & post & rs & w1 & e & w2 & ev & Hq & Hpre & Ha)].
  - rewrite (step_ok room client_send s rs w Hok).
    pose proof (sends_ok_length room client_send _ _ _ _ Hok) as Hlen.
    destruct (run_events_quiet (combine (State_next_actions (sys_state s)) rs))
      as (_ & _ & Hr & _).
    simpl. erewrite new_trace_app by reflexivity. simpl.
    rewrite run_events_attempted, run_events_sent_pairs, run_events_success, Hr,
      run_events_first_raised, map_map, combine_map_snd.
    rewrite (combine_fst_same_length _ rs Hlen).
    repeat split; auto. exists []. now rewrite app_nil_r.
  - rewrite (step_raise room client_send s pre a post rs w1 e w2 ev Hq Hpre Ha).
    pose proof (sends_ok_length room client_send _ _ _ _ Hpre) as Hlen.
    destruct (run_events_quiet (combine pre rs)) as (_ & _ & Hr & _).
    destruct (failure_observed room client_send _ _ _ _ _ Ha)
      as (Fs & _ & _ & Fk & Fl & _ & Ff & (rest & Fa)).
    simpl. erewrite new_trace_app by reflexivity. simpl.
    rewrite attempted_app, sent_pairs_app, success_records_app, running_records_app,
      first_raised_app.
    rewrite run_events_attempted, run_events_sent_pairs, run_events_success, Hr,
      run_events_first_raised, combine_map_snd, Fs, Fk, Fl, Ff.
    simpl. rewrite !app_nil_r, map_map, (combine_fst_same_length _ rs Hlen), Hq.
    repeat split; auto. exists (rest ++ post).
    rewrite <- app_assoc, (app_assoc (attempted [ev])), <- Fa. reflexivity.
Qed.

(** X13 - With a negative cap [m] the slice counts from the end: of [k]
    parsed actions the queue holds the first [k + m], none when [k + m] is
    not positive; the last [-m] proposals are dropped, and a completion with
    at most [-m] actions queues nothing. *)
Theorem parse_negative_cap_drops_tail max_actions completion (s : Sys World)
    (Hneg : max_actions < 0) :
  let parsed := Codec.try_parse_many completion in
  let out := parse max_actions completion s in
  fst out = inr tt
  /\ State_next_actions (sys_state (snd out))
     = firstn (List.length parsed - Z.to_nat (- max_actions)) parsed
  /\ Z.of_nat (List.length (State_next_actions (sys_state (snd out))))
     = Z.max 0 (Z.of_nat (List.length parsed) + max_actions).
Proof.
  cbv zeta. rewrite parse_spec. simpl. unfold Py.slice_to.
  destruct (0 <=? max_actions) eqn:E; [apply Z.leb_le in E; lia|].
  replace (Z.to_nat (Z.of_nat (List.length (Codec.try_parse_many completion)) + max_actions))
    with (List.length (Codec.try_parse_many completion) - Z.to_nat (- max_actions))%nat
    by lia.
  repeat split. rewrite length_firstn. lia.
Qed.

(** X14 - With an iteration count that is zero or negative the loop body
    never runs: the run ends normally at once, with nothing generated,
    nothing sent, nothing logged and the state as it was. *)
Theorem agent_loop_no_iterations iterations max_actions (s : Sys World)
    (Hn : iterations <= 0) :
  agent_loop room client_send generate iterations max_actions s = (inr tt, s).
Proof. unfold agent_loop. now rewrite (range_nonpositive iterations Hn). Qed.

(** X15 - When the generation backend raises, the exception leaves the
    round and the loop: no action is parsed or sent, the state is as it was,
    and the rounds after it are never started. *)
Theorem round_generate_raises iterations max_actions i (s : Sys World) e w
    (Hgen : generate (State_get_prompt (sys_state s)) (sys_world s) = (inl e, w)) :
  let out := round room client_send generate iterations max_actions i s in
  fst out = inl e
  /\ sys_state (snd out) = sys_state s
  /\ sys_world (snd out) = w
  /\ new_trace s (snd out)
     = [ LogIteration (i + 1) iterations;
         Generated (State_get_prompt (sys_state s)) (inl e) ]
  /\ (forall rest,
        for_each (i :: rest) (round room client_send generate iterations max_actions) s
        = out).
Proof.
  cbv zeta. rewrite round_unfold. cbv zeta. rewrite Hgen. simpl.
  erewrite new_trace_app by (simpl; rewrite <- app_assoc; reflexivity).
  repeat split. intros rest. simpl. unfold bind at 1.
  rewrite round_unfold. cbv zeta. now rewrite Hgen.
Qed.

(** What one round leaves behind, continued. *)
Lemma round_facts iterations max_actions i (s : Sys World) res s' :
  round room client_send generate iterations max_actions i s = (res, s') ->
  exists out new,
    sys_trace s'
    = sys_trace s ++ LogIteration (i + 1) iterations
                     :: Generated (State_get_prompt (sys_state s)) out :: new
    /\ State_goals (sys_state s') = State_goals (sys_state s)
    /\ State_max_actions (sys_state s') = State_max_actions (sys_state s)
    /\ first_raised (Generated (State_get_prompt (sys_state s)) out :: new)
       = match res with inl e => Some e | inr _ => None end
    /\ (0 <= max_actions ->
        (List.length (attempted new) <= Z.to_nat max_actions)%nat)
    /\ (res = inr tt -> State_next_actions (sys_state s') = [])
    /\ out = fst (generate (State_get_prompt (sys_state s)) (sys_world s)).
Proof.
  rewrite round_unfold. cbv zeta.
  destruct (generate _ _) as [[e|completion] w].
  - intros [= <- <-]. exists (inl e), []. simpl. rewrite <- app_assoc. simpl.
    repeat split; [lia|discriminate].
  - assert (Hcap : 0 <= max_actions ->
              (List.length (Py.slice_to (Codec.try_parse_many completion) max_actions)
               <= Z.to_nat max_actions)%nat).
    { intros H. destruct (slice_to_nonneg (Codec.try_parse_many completion) _ H) as [_ Hl].
      lia. }
    remember (Py.slice_to (Codec.try_parse_many completion) max_actions) as q eqn:Eq.
    clear Eq.
    destruct (sends_cases room client_send q w)
      as [(rs & w' & Hok)|(pre & a & post & rs & w1 & e & w2 & ev & Hq & Hpre & Ha)].
    + rewrite (step_ok room client_send _ rs w') by exact Hok. simpl. intros [= <- <-].
      exists (inr completion),
        (LogRunning (List.length q) :: flat_map run_events (combine q rs)).
      pose proof (sends_ok_length room client_send _ _ _ _ Hok) as Hlen.
      simpl. rewrite <- !app_assoc, run_events_first_raised, run_events_attempted.
      rewrite (combine_fst_same_length _ rs Hlen).
      repeat split; auto.
    + rewrite (step_raise room client_send _ pre a post rs w1 e w2 ev) by assumption.
      simpl. intros [= <- <-].
      exists (inr completion),
        (LogRunning (List.length (pre ++ a :: post))
         :: flat_map run_events (combine pre rs) ++ [ev]).
      pose proof (sends_ok_length room client_send _ _ _ _ Hpre) as Hlen.
      destruct (failure_observed room client_send _ _ _ _ _ Ha)
        as (_ & _ & _ & _ & _ & _ & Ff & (rest & Fa)).
      simpl. rewrite <- !app_assoc.
      rewrite first_raised_app, attempted_app, run_events_first_raised,
        run_events_attempted, (combine_fst_same_length _ rs Hlen), Ff.
      repeat split; auto; [|discriminate].
      intros H. specialize (Hcap H). subst q.
      apply (f_equal (@List.length Request)) in Fa.
      rewrite !length_app in *. simpl in *. lia.
Qed.

(** What a run of rounds leaves behind, continued. *)
Lemma rounds_facts iterations max_actions l : forall (s : Sys World) res s',
  for_each l (round room client_send generate iterations max_actions) s = (res, s') ->
  exists new,
    sys_trace s' = sys_trace s ++ new
    /\ State_goals (sys_state s') = State_goals (sys_state s)
    /\ State_max_actions (sys_state s') = State_max_actions (sys_state s)
    /\ first_raised new = match res with inl e => Some e | inr _ => None end
    /\ (0 <= max_actions ->
        (List.length (attempted new) <= List.length l * Z.to_nat max_actions)%nat)
    /\ (res = inr tt -> l <> [] -> State_next_actions (sys_state s') = [])
    /\ (forall i rest, l = i :: rest ->
        exists out t,
          new = LogIteration (i + 1) iterations
                :: Generated (State_get_prompt (sys_state s)) out :: t
          /\ out = fst (generate (State_get_prompt (sys_state s)) (sys_world s))).
Proof.
  induction l as [|i l IH]; intros s res s'.
  - intros [= <- <-]. exists []. rewrite app_nil_r. simpl.
    repeat split; auto; try lia; try congruence; try discriminate.
  - simpl. unfold bind at 1.
    destruct (round room client_send generate iterations max_actions i s) as [[e|[]] s1] eqn:Er;
      destruct (round_facts _ _ _ _ _ _ Er)
        as (out & new1 & Ht & Hg & Hm & Hf & Hb & Hq & Hout).
    + intros [= <- <-].
      exists (LogIteration (i + 1) iterations
              :: Generated (State_get_prompt (sys_state s)) out :: new1).
      repeat split; auto; try discriminate.
      * intros H. specialize (Hb H). simpl. lia.
      * intros i' rest [= <- <-]. eauto.
    + intros Hrest.
      destruct (IH _ _ _ Hrest) as (new2 & Ht2 & Hg2 & Hm2 & Hf2 & Hb2 & Hq2 & _).
      exists ((LogIteration (i + 1) iterations
               :: Generated (State_get_prompt (sys_state s)) out :: new1) ++ new2).
      rewrite Ht2, Ht, Hg2, Hg, Hm2, Hm, <- !app_assoc.
      rewrite first_raised_app, attempted_app, length_app.
      change (first_raised
                (LogIteration (i + 1) iterations
                 :: Generated (State_get_prompt (sys_state s)) out :: new1))
        with (first_raised (Generated (State_get_prompt (sys_state s)) out :: new1)).
      rewrite Hf.
      repeat split; auto.
      * intros H. specialize (Hb H). specialize (Hb2 H). simpl. lia.
      * intros Hres _. destruct l as [|j l].
        -- simpl in Hrest. injection Hrest as _ <-. now apply Hq.
        -- apply Hq2; [exact Hres|discriminate].
      * intros i' rest [= <- <-]. eauto.
Qed.

(** X16 - With a cap that is not negative at most [max_actions] requests
    are handed to the transport in a round, so a run of [iterations] rounds
    makes at most [iterations * max_actions] sends and its traffic grows by
    at most as many pairs; with a cap of zero nothing is ever sent. *)
Theorem sends_bounded iterations max_actions (s : Sys World)
    (Hcap : 0 <= max_actions) :
  let out := agent_loop room client_send generate iterations max_actions s in
  let new := new_trace s (snd out) in
  (List.length (attempted new) <= Z.to_nat iterations * Z.to_nat max_actions)%nat
  /\ (List.length (State_traffic (sys_state (snd out)))
      <= List.length (State_traffic (sys_state s))
         + Z.to_nat iterations * Z.to_nat max_actions)%nat.
Proof.
  cbv zeta. unfold agent_loop.
  destruct (for_each _ _ s) as [res s'] eqn:E.
  destruct (rounds_facts _ _ _ _ _ _ E) as (new & Ht & _ & _ & _ & Hb & _).
  destruct (rounds_spec room client_send generate _ _ _ _ _ _ E) as (new' & Ht' & Hf & _).
  assert (new' = new) as -> by (rewrite Ht in Ht'; now apply app_inv_head in Ht').
  simpl. rewrite (new_trace_app _ _ _ Ht).
  specialize (Hb Hcap). rewrite range_length in Hb.
  split; [exact Hb|].
  rewrite Hf, length_app. pose proof (sent_le_attempted new). lia.
Qed.

(** X17 - A run never changes the goals or the cap held by the state,
    whatever its outcome: the goal shown in the prompt is the same in every
    round. *)
Theorem agent_loop_keeps_goals iterations max_actions (s : Sys World) :
  let out := agent_loop room client_send generate iterations max_actions s in
  State_goals (sys_state (snd out)) = State_goals (sys_state s)
  /\ State_max_actions (sys_state (snd out)) = State_max_actions (sys_state s)
  /\ active_goal (sys_state (snd out)) = active_goal (sys_state s).
Proof.
  cbv zeta. unfold agent_loop.
  destruct (for_each _ _ s) as [res s'] eqn:E.
  destruct (rounds_facts _ _ _ _ _ _ E) as (new & _ & Hg & Hm & _).
  simpl. unfold active_goal. rewrite Hg. auto.
Qed.

(** X18 - A run of at least one round that ends normally leaves the queue
    empty, whatever was queued before it: the actions of a round are never
    carried over to the next one. *)
Theorem agent_loop_ends_with_empty_queue iterations max_actions (s : Sys World)
    (Hn : 0 < iterations)
    (Hok : fst (agent_loop room client_send generate iterations max_actions s) = inr tt) :
  State_next_actions
    (sys_state (snd (agent_loop room client_send generate iterations max_actions s))) = [].
Proof.
  revert Hok. unfold agent_loop.
  destruct (range_positive iterations Hn) as [rest Hr].
  destruct (for_each _ _ s) as [res s'] eqn:E.
  destruct (rounds_facts _ _ _ _ _ _ E) as (new & _ & _ & _ & _ & _ & Hq & _).
  simpl. intros ->. apply Hq; [reflexivity|]. rewrite Hr. discriminate.
Qed.

(** X19 - No exception is caught: a run ends with an exception exactly when
    a call to the generation backend, a call to the transport or the
    decoding of the body of an action raised, the exception it ends with is
    the one of the first that did, and a run that ends normally has seen
    none of them raise. *)
Theorem agent_loop_propagates iterations max_actions (s : Sys World) :
  let out := agent_loop room client_send generate iterations max_actions s in
  let new := new_trace s (snd out) in
  first_raised new = match fst out with inl e => Some e | inr _ => None end
  /\ raised new = match fst out with inl _ => true | inr _ => false end.
Proof.
  cbv zeta. unfold agent_loop.
  destruct (for_each _ _ s) as [res s'] eqn:E.
  destruct (rounds_facts _ _ _ _ _ _ E) as (new & Ht & _ & _ & Hf & _).
  destruct (rounds_spec room client_send generate _ _ _ _ _ _ E)
    as (new' & Ht' & _ & _ & Hq & Hr & _).
  assert (new' = new) as -> by (rewrite Ht in Ht'; now apply app_inv_head in Ht').
  simpl. rewrite (new_trace_app _ _ _ Ht). split; [exact Hf|].
  destruct res as [e|[]].
  - destruct (raised new) eqn:Ex; [reflexivity|]. destruct (Hq eq_refl). discriminate.
  - now apply Hr.
Qed.

(** X20 - [cli] starts from a state with the given goal as its only goal,
    no traffic and an empty queue: when at least one round is asked for, the
    run begins with the record [Iteration 1/n] followed by the call to the
    generation backend, with a prompt that shows the placeholder for the
    traffic and the given goal; nothing is logged, generated or sent before
    them. *)
Theorem cli_first_prompt goal iterations max_actions w (Hn : 0 < iterations) :
  let out := cli room client_send generate goal iterations max_actions w in
  let first :=
    Codec.nl +:+ "# Traffic" +:+ Codec.nl
    +:+ "No traffic yet" +:+ Codec.nl
    +:+ Codec.nl
    +:+ "# Goal" +:+ Codec.nl
    +:+ goal +:+ Codec.nl
    +:+ Codec.nl
    +:+ "# Actions" +:+ Codec.nl
    +:+ "Use the format below to send new HTTP requests." +:+ Codec.nl
    +:+ Codec.nl
    +:+ Request_xml_example +:+ Codec.nl in
  exists completion rest,
    sys_trace (snd out)
    = LogIteration 1 iterations :: Generated first completion :: rest
    /\ completion = fst (generate first w).
Proof.
  cbv zeta. unfold cli, agent_loop.
  destruct (range_positive iterations Hn) as [rest Hr]. rewrite Hr.
  destruct (for_each _ _ _) as [res s'] eqn:E.
  destruct (rounds_facts _ _ _ _ _ _ E) as (new & Ht & _ & _ & _ & _ & _ & Hhead).
  destruct (Hhead 0 rest eq_refl) as (out & t & Hnew & Hout).
  simpl in Ht. simpl. rewrite Ht, Hnew. exists out, t. split; [reflexivity|exact Hout].
Qed.

(** X21 - When the decoding of the body of an action raises anything but a
    decode error, a [ValueError] or a [RecursionError], the exception
    leaves [send_request] before the call is built: nothing is handed to the
    transport, the state and the world are as they were, and [run] leaves
    with the same exception, no pair appended and no success logged. *)
Theorem send_request_decode_raises self (s : Sys World) e
    (Hraises : Json.loads room (Request_body self) = Json.Raises e)
    (Hother : e <> Json.JSONDecodeError) :
  let out := send_request room client_send self s in
  let ran := Request_run room client_send self s in
  call_of room self = inl (Raised (Json.Error_name e))
  /\ fst out = inl (Raised (Json.Error_name e))
  /\ sys_state (snd out) = sys_state s
  /\ sys_world (snd out) = sys_world s
  /\ new_trace s (snd out) = [DecodeRaised self (Raised (Json.Error_name e))]
  /\ attempted (new_trace s (snd out)) = []
  /\ fst ran = inl (Raised (Json.Error_name e))
  /\ snd ran = snd out.
Proof.
  cbv zeta.
  assert (Hcall : call_of room self = inl (Raised (Json.Error_name e))).
  { unfold call_of, decode_body. rewrite Hraises. now destruct e. }
  unfold Request_run, bind, send_request. rewrite Hcall. simpl.
  erewrite new_trace_app by reflexivity. repeat split.
Qed.

End AgentMore.

(** ** The further statements on the scripted world *)

(** Three actions queued, every send answered. *)
Lemma step_runs_queue_in_order_witness :
  let s := queued_sys [inr ok_200; inr ok_200; inr ok_200] in
  let out := State_step script_room script_send s in
  fst out = inr tt
  /\ State_next_actions (sys_state (snd out)) = []
  /\ attempted (new_trace s (snd out)) = [get_a; get_b; post_c]
  /\ List.length (State_traffic (sys_state (snd out))) = 4%nat.
Proof.
  cbv zeta.
  destruct (step_runs_queue_in_order script_room script_send
              (queued_sys [inr ok_200; inr ok_200; inr ok_200])
              [ok_200; ok_200; ok_200] (mkScript [] []))
    as (H1 & H2 & _ & H4 & _ & _ & H7 & _); [reflexivity|].
  split; [exact H1|]. split; [exact H2|]. split; [exact H4|exact H7].
Defined.

(** With a cap of minus two, one of the three proposed actions is queued. *)
Lemma parse_negative_cap_drops_tail_witness :
  let out := parse (-2) three_actions (empty_sys (-2) no_world) in
  State_next_actions (sys_state (snd out)) = [get_a]
  /\ Z.of_nat (List.length (State_next_actions (sys_state (snd out)))) = 1.
Proof.
  cbv zeta.
  destruct (parse_negative_cap_drops_tail (-2) three_actions (empty_sys (-2) no_world))
    as (_ & H2 & H3); [lia|].
  split.
  - rewrite H2. vm_compute. reflexivity.
  - rewrite H3. vm_compute. reflexivity.
Defined.

(** Minus three iterations asked for. *)
Lemma agent_loop_no_iterations_witness :
  agent_loop script_room script_send script_generate (-3) 2
    (empty_sys 2 (three_twice [inr ok_200]))
  = (inr tt, empty_sys 2 (three_twice [inr ok_200])).
Proof. apply agent_loop_no_iterations. lia. Defined.

(** The backend raises in the first of three rounds. *)
Lemma round_generate_raises_witness :
  let s := empty_sys 2 (mkScript [inl (Raised "RateLimitError")] [inr ok_200]) in
  let out := round script_room script_send script_generate 3 2 0 s in
  fst out = inl (Raised "RateLimitError")
  /\ sys_state (snd out) = sys_state s
  /\ attempted (new_trace s (snd out)) = []
  /\ agent_loop script_room script_send script_generate 3 2 s = out.
Proof.
  cbv zeta.
  destruct (round_generate_raises script_room script_send script_generate 3 2 0
              (empty_sys 2 (mkScript [inl (Raised "RateLimitError")] [inr ok_200]))
              (Raised "RateLimitError") (mkScript [] [inr ok_200]))
    as (H1 & H2 & _ & H4 & H5); [reflexivity|].
  split; [exact H1|]. split; [exact H2|]. split; [rewrite H4; reflexivity|].
  exact (H5 [1; 2]).
Defined.

(** Two rounds with a cap of two, three actions proposed in each. *)
Lemma sends_bounded_witness :
  let s := empty_sys 2 (three_twice [inr ok_200; inr ok_200; inr ok_200; inr ok_200]) in
  let out := agent_loop script_room script_send script_generate 2 2 s in
  (List.length (attempted (new_trace s (snd out))) <= 4)%nat
  /\ (List.length (State_traffic (sys_state (snd out))) <= 4)%nat.
Proof.
  cbv zeta.
  destruct (sends_bounded script_room script_send script_generate 2 2
              (empty_sys 2 (three_twice [inr ok_200; inr ok_200; inr ok_200; inr ok_200])))
    as [H1 H2]; [lia|].
  split; [exact H1|exact H2].
Defined.

(** One round started with three actions already queued. *)
Lemma agent_loop_ends_with_empty_queue_witness :
  let s := mkSys (sys_state (queued_sys [])) (idle_then_three []) [] in
  State_next_actions (sys_state s) = [get_a; get_b; post_c]
  /\ State_next_actions
       (sys_state (snd (agent_loop script_room script_send script_generate 1 2 s))) = [].
Proof.
  cbv zeta. split; [reflexivity|].
  apply agent_loop_ends_with_empty_queue; [lia|vm_compute; reflexivity].
Defined.

(** Three rounds asked for with a goal of one's own, the backend failing. *)
Lemma cli_first_prompt_witness :
  exists completion rest,
    sys_trace (snd (cli script_room script_send script_generate
                      "Find the login form" 3 2 no_world))
    = LogIteration 1 3
      :: Generated (State_get_prompt (initial_state "Find the login form" 2)) completion
      :: rest
    /\ completion = inl (Raised "StopIteration").
Proof.
  destruct (cli_first_prompt script_room script_send script_generate
              "Find the login form" 3 2 no_world)
    as (completion & rest & H1 & H2); [lia|].
  exists completion, rest. split; [exact H1|]. rewrite H2. reflexivity.
Defined.

(** A body that is an integer of 4301 digits, and one of a thousand nested
    lists: the decoder raises, nothing is sent. *)
Lemma send_request_decode_raises_witness :
  let s := empty_sys 2 (mkScript [] [inr ok_200]) in
  (fst (send_request script_room script_send long_integer_body s)
   = inl (Raised "ValueError")
   /\ sys_world (snd (send_request script_room script_send long_integer_body s))
      = sys_world s
   /\ new_trace s (snd (send_request script_room script_send long_integer_body s))
      = [DecodeRaised long_integer_body (Raised "ValueError")])
  /\ fst (send_request script_room script_send deep_list_body s)
     = inl (Raised "RecursionError").
Proof.
  cbv zeta. split.
  - destruct (send_request_decode_raises script_room script_send long_integer_body
                (empty_sys 2 (mkScript [] [inr ok_200])) Json.ValueError)
      as (_ & H2 & H3 & H4 & H5 & _); [vm_compute; reflexivity|discriminate|].
    split; [exact H2|]. split; [exact H4|exact H5].
  - destruct (send_request_decode_raises script_room script_send deep_list_body
                (empty_sys 2 (mkScript [] [inr ok_200])) Json.RecursionError)
      as (_ & H2 & _); [vm_compute; reflexivity|discriminate|].
    exact H2.
Defined.

(** The limits of the decoder are exact: 4300 digits are converted, and
    nesting is read as deep as there is room. *)
Example decoder_limits :
  (exists n, Json.loads script_room (times 4300 "7") = Json.Returns (Json.JInt n))
  /\ Json.loads script_room (times 4301 "7") = Json.Raises Json.ValueError
  /\ Json.loads script_room (times 4301 "7" +:+ ".5") <> Json.Raises Json.ValueError
  /\ Json.loads 2 "[[[]]]" = Json.Returns (Json.JList [Json.JList [Json.JList []]])
  /\ Json.loads 1 "[[[]]]" = Json.Raises Json.RecursionError
  /\ Json.loads 0 "[1]" = Json.Raises Json.RecursionError
  /\ Json.loads 0 "[]" = Json.Returns (Json.JList [])
  /\ Json.loads 0 "12" = Json.Returns (Json.JInt 12).
Proof.
  split; [eexists; vm_compute; reflexivity|].
  repeat split; try (vm_compute; reflexivity).
  vm_compute. discriminate.
Qed.
